(** * The playbook key-value layer of tcex: [tcex/playbook/playbook.py]

  A shallow embedding of the [Playbook] class and the properties of its
  variable grammar, its typed create/read dispatch and its buffered
  requested-output protocol.

  Python strings are modelled as [string] over ASCII text, Python values
  as the inductive [value], insertion-ordered dictionaries as association
  lists with unique keys, and the methods that mutate the instance as
  functions in a state-and-exception monad over the instance record. A
  buffered list is followed by its contents; the module [Obj] follows the
  list objects themselves, for what depends on which object a record
  holds. *)

From Stdlib Require Import Ascii NArith.
From stdpp Require Import base option list strings gmap.

Set Warnings "-register-all".
Local Open Scope N_scope.

(** ** Python values and exceptions *)

Module Py.

(** The values that travel through the playbook layer ([Any] in the
    annotations of the source). *)
Inductive value : Type :=
| VNone
| VBool (b : bool)
| VInt (z : Z)
| VStr (s : string)
| VBytes (b : string)
| VList (l : list value)
| VDict (d : list (string * value)).

(** [isinstance(v, str)], [isinstance(v, list)] and [v is None]. *)
Definition is_str (v : value) : bool :=
  match v with VStr _ => true | _ => false end.

Definition is_list (v : value) : bool :=
  match v with VList _ => true | _ => false end.

Definition is_none (v : value) : bool :=
  match v with VNone => true | _ => false end.

(** The exceptions the layer can raise; [StoreError] stands for whatever
    an adapter call raises. *)
Inductive exn : Type :=
| TypeError (msg : string)
| AttributeError (msg : string)
| RuntimeError (msg : string)
| KeyError (msg : string)
| StoreError (msg : string).

Inductive result (A : Type) : Type :=
| Ok (a : A)
| Raise (e : exn).
Arguments Ok {A} a.
Arguments Raise {A} e.

Definition is_ok {A} (r : result A) : bool :=
  match r with Ok _ => true | Raise _ => false end.

(** Computations over a mutable state [S] that may raise; the state
    reached when the exception is raised is kept. *)
Definition M (S A : Type) : Type := S → result A * S.

Definition ret {S A} (a : A) : M S A := λ s, (Ok a, s).

Definition raise {S A} (e : exn) : M S A := λ s, (Raise e, s).

Definition bind {S A B} (m : M S A) (k : A → M S B) : M S B :=
  λ s, match m s with
       | (Ok a, s') => k a s'
       | (Raise e, s') => (Raise e, s')
       end.

(** A pure step that may raise, run inside a stateful method. *)
Definition lift {S A} (r : result A) : M S A := λ s, (r, s).

(** A call made for its effect, as the body of a [for] loop makes it. *)
Fixpoint for_each {S A B} (f : A → M S B) (l : list A) : M S unit :=
  match l with
  | [] => ret tt
  | x :: l' => bind (f x) (λ _, for_each f l')
  end.

End Py.
Export Py.

Notation "x <- m ;; k" := (Py.bind m (λ x, k))
  (at level 100, m at next level, right associativity, only parsing).

(** ** Characters and [str.strip] *)

Module Chars.

Definition code (c : ascii) : N := N_of_ascii c.

Definition in_range (lo hi : N) (c : ascii) : bool :=
  (lo <=? code c) && (code c <=? hi).

(** [\d] on ASCII text. *)
Definition is_digit (c : ascii) : bool := in_range 48 57 c.

Definition is_upper (c : ascii) : bool := in_range 65 90 c.
Definition is_lower (c : ascii) : bool := in_range 97 122 c.

(** [\w] on ASCII text: letters, digits and the underscore. *)
Definition is_word (c : ascii) : bool :=
  is_upper c || is_lower c || is_digit c || (code c =? 95).

(** The class [[A-Za-z0-9_.\-]]. *)
Definition is_name_char (c : ascii) : bool :=
  is_word c || (code c =? 46) || (code c =? 45).

(** [str.isspace] on ASCII text: tab, line feed, vertical tab, form
    feed, carriage return, the four separators 28..31 and the space. *)
Definition is_space (c : ascii) : bool :=
  in_range 9 13 c || in_range 28 32 c.

Fixpoint all_chars (p : ascii → bool) (s : string) : bool :=
  match s with
  | EmptyString => true
  | String c s' => p c && all_chars p s'
  end.

Fixpoint lstrip (s : string) : string :=
  match s with
  | EmptyString => EmptyString
  | String c s' => if is_space c then lstrip s' else s
  end.

Fixpoint rstrip (s : string) : string :=
  match s with
  | EmptyString => EmptyString
  | String c s' =>
      match rstrip s' with
      | EmptyString => if is_space c then EmptyString else String c EmptyString
      | r => String c r
      end
  end.

(** [s.strip()]. *)
Definition strip (s : string) : string := rstrip (lstrip s).

End Chars.
Export Chars.

(** ** The variable grammar as the [re] module runs it *)

Module Re.

(** The groups of a match that the source reads: [group(0)] (the whole
    match), [group(2)], [group(3)] and [group(4)]. *)
Record groups : Type := Groups {
  group0 : string;
  group2 : string;
  group3 : string;
  group4 : string
}.

(** A greedy [class+] or [class*]: the longest prefix in the class and
    what follows it. *)
Fixpoint span (p : ascii → bool) (s : string) : string * string :=
  match s with
  | EmptyString => (EmptyString, EmptyString)
  | String c s' =>
      if p c then let '(a, b) := span p s' in (String c a, b)
      else (EmptyString, s)
  end.

(** A literal: the rest of [s] after the prefix [pre]. *)
Fixpoint literal (pre s : string) : option string :=
  match pre, s with
  | EmptyString, _ => Some s
  | String a pre', String c s' =>
      if decide (a = c) then literal pre' s' else None
  | String _ _, EmptyString => None
  end.

Definition non_empty (s : string) : option string :=
  match s with EmptyString => None | _ => Some s end.

(** Modelled from the spec: the pattern [#App:\d+:[A-Za-z0-9_.\-]+!\w+]
    of the variable grammar, whose definition [_variable_pattern] is in the
    base class [PlaybookABC], not in [playbook.py]. The pattern is run at
    the start of [s]; the result is the groups and the unread rest. No
    class contains the delimiter that follows it, so the greedy run of each
    class is the only one a backtracking matcher can succeed with. *)
Definition variable_pattern (s : string) : option (groups * string) :=
  r0 ← literal "#App:" s;
  let '(job_id, r1) := span is_digit r0 in
  _ ← non_empty job_id;
  r2 ← literal ":" r1;
  let '(name, r3) := span is_name_char r2 in
  _ ← non_empty name;
  r4 ← literal "!" r3;
  let '(type, r5) := span is_word r4 in
  _ ← non_empty type;
  Some ({| group0 := "#App:" +:+ job_id +:+ ":" +:+ name +:+ "!" +:+ type;
           group2 := job_id; group3 := name; group4 := type |}, r5).

(** Modelled from the spec: [re.match(self._variable_match, s)], the
    pattern anchored at both ends. *)
Definition match_variable (s : string) : option groups :=
  '(g, rest) ← variable_pattern s;
  match rest with EmptyString => Some g | _ => None end.

(** The truth value of the match object in [if re.match(...)]. *)
Definition is_match (s : string) : bool :=
  match match_variable s with Some _ => true | None => false end.

(** Modelled from the spec: [re.search(self._variable_parse, s)], the
    first position of [s] at which the pattern matches. *)
Fixpoint search_variable (s : string) : option groups :=
  match variable_pattern s with
  | Some (g, _) => Some g
  | None =>
      match s with
      | EmptyString => None
      | String _ s' => search_variable s'
      end
  end.

(** [re.sub(r'(?<!\\)\\s', ' ', s)]: every backslash-s that no backslash
    precedes becomes a space. [prev] tells whether the character before
    [s] in the subject is a backslash. *)
Fixpoint sub_space (prev : bool) (s : string) : string :=
  match s with
  | EmptyString => EmptyString
  | String c tl =>
      match tl with
      | String c' rest =>
          if decide (c = "\"%char ∧ c' = "s"%char ∧ prev = false)
          then String " " (sub_space false rest)
          else String c (sub_space (bool_decide (c = "\"%char)) tl)
      | EmptyString => String c EmptyString
      end
  end.

(** [re.sub(r'\\\\s', r'\\s', s)]: every backslash-backslash-s becomes
    backslash-s. *)
Fixpoint sub_escaped (s : string) : string :=
  match s with
  | EmptyString => EmptyString
  | String c tl =>
      match tl with
      | String c' (String c'' rest) =>
          if decide (c = "\"%char ∧ c' = "\"%char ∧ c'' = "s"%char)
          then String "\" (String "s" (sub_escaped rest))
          else String c (sub_escaped tl)
      | _ => String c (sub_escaped tl)
      end
  end.

End Re.

(** ** Insertion-ordered dictionaries *)

Module Dict.

(** A Python [dict] with string keys whose iteration order matters: the
    keys are unique and in insertion order. *)
Definition t (V : Type) : Type := list (string * V).

Fixpoint get {V} (d : t V) (k : string) : option V :=
  match d with
  | [] => None
  | (k', v) :: d' => if decide (k' = k) then Some v else get d' k
  end.

(** [d[k] = v]: an existing key keeps its position, a new key goes last. *)
Fixpoint set {V} (d : t V) (k : string) (v : V) : t V :=
  match d with
  | [] => [(k, v)]
  | (k', v') :: d' =>
      if decide (k' = k) then (k, v) :: d' else (k', v') :: set d' k v
  end.

(** [d.setdefault(k, v)], for its effect on [d]. *)
Definition setdefault {V} (d : t V) (k : string) (v : V) : t V :=
  match get d k with
  | Some _ => d
  | None => d ++ [(k, v)]
  end.

(** [d.values()]. *)
Definition values {V} (d : t V) : list V := map snd d.

Definition keys {V} (d : t V) : list string := map fst d.

End Dict.

(** ** The base class *)

(** The methods of [PlaybookABC] that [playbook.py] calls and does not
    define. They are taken as an interface over the state [store] of the
    key-value store they talk to: each may change the store and may raise. *)
Class PlaybookABC (store : Type) : Type := {
  _create : string → value → M store value;
  _create_array : string → value → M store value;
  create_raw : string → value → M store value;
  _read : string → bool → M store value;
  _read_array : string → bool → M store value;
  read_raw : string → M store value;
  _read_embedded : value → M store value
}.

(** Modelled from the spec: [_variable_single_types], the single-value
    types of the type classifier (a table of [PlaybookABC]). *)
Definition _variable_single_types : list string :=
  ["Binary"; "KeyValue"; "String"; "TCEntity"; "TCEnhancedEntity"].

(** Modelled from the spec: [_variable_array_types], each single type's
    array form (a table of [PlaybookABC]). *)
Definition _variable_array_types : list string :=
  ["BinaryArray"; "KeyValueArray"; "StringArray"; "TCEntityArray";
   "TCEnhancedEntityArray"].

(** [x in l] on a list of strings. *)
Definition py_in (x : string) (l : list string) : bool :=
  bool_decide (x ∈ l).

(** ** The variable grammar: [is_variable], [parse_variable], [variable_type] *)

(** The dictionary [parse_variable] returns. *)
Record parsed_variable : Type := ParsedVariable {
  root : string;
  job_id : string;
  name : string;
  type : string
}.

(** [m.group(i)] on the result [m] of [re.search], which is [None] when
    nothing matched. *)
Definition search_groups (s : string) : result Re.groups :=
  match Re.search_variable s with
  | Some g => Ok g
  | None => Raise (AttributeError "'NoneType' object has no attribute 'group'")
  end.

Definition is_variable (key : value) : bool :=
  match key with
  | VStr s => if Re.is_match s then true else false
  | _ => false
  end.

Definition parse_variable (variable : option string)
  : result (option parsed_variable) :=
  match variable with
  | None => Ok None
  | Some variable =>
      let variable := strip variable in
      if Re.is_match variable then
        match search_groups variable with
        | Ok var =>
            Ok (Some {| root := Re.group0 var; job_id := Re.group2 var;
                        name := Re.group3 var; type := Re.group4 var |})
        | Raise e => Raise e
        end
      else Ok None
  end.

Definition variable_type (variable : value) : result string :=
  match variable with
  | VStr variable =>
      let variable := strip variable in
      if Re.is_match variable then
        match search_groups variable with
        | Ok var => Ok (Re.group4 var)
        | Raise e => Raise e
        end
      else Ok "String"
  | _ => Ok "String"
  end.

(** ** The instance state *)

(** A buffered output record: the inner dictionary of [output_data], whose
    fields ['key'], ['type'] and ['value'] may each be absent. *)
Record output_record : Type := OutputRecord {
  rec_key : option string;
  rec_type : option string;
  rec_value : option value
}.

Definition empty_record : output_record :=
  {| rec_key := None; rec_type := None; rec_value := None |}.

(** [data.get('value')]: [None] when the field is absent. *)
Definition get_value (data : output_record) : value :=
  default VNone (rec_value data).

(** A value of the output request index: [{'variable': ov}]. *)
Record requested : Type := Requested { variable : string }.

Record Playbook (store : Type) : Type := MkPlaybook {
  output_variables : option (list string);
  output_data : Dict.t output_record;
  key_value_store : store
}.
Arguments MkPlaybook {store}.
Arguments output_variables {store}.
Arguments output_data {store}.
Arguments key_value_store {store}.

Definition set_output_data {store} (pb : Playbook store)
  (d : Dict.t output_record) : Playbook store :=
  {| output_variables := output_variables pb; output_data := d;
     key_value_store := key_value_store pb |}.

(** A method of the base class run on the store of the instance. *)
Definition on_store {store A} (m : M store A) : M (Playbook store) A :=
  λ pb, let '(r, σ) := m (key_value_store pb) in
        (r, {| output_variables := output_variables pb;
               output_data := output_data pb; key_value_store := σ |}).

(** ** The output request index *)

(** The two mappings, by bare name and by name-type composite. *)
Definition index : Type := gmap string requested * gmap string requested.

(** Modelled from the spec: one step of [_parse_output_variables] (a
    method of [PlaybookABC]): the requested variable string is parsed into
    name and type and inserted into both mappings, its value holding the
    requested string itself. The spec gives the list as strings of the
    grammar; a string that does not parse is not indexed. *)
Definition index_variable (ix : index) (ov : string) : index :=
  match parse_variable (Some ov) with
  | Ok (Some p) =>
      (<[name p := {| variable := ov |}]> ix.1,
       <[name p +:+ "-" +:+ type p := {| variable := ov |}]> ix.2)
  | _ => ix
  end.

(** Modelled from the spec: [_parse_output_variables] over the requested
    list, an absent list standing for the empty one. *)
Definition _parse_output_variables (outs : option (list string)) : index :=
  foldl index_variable (∅, ∅) (default [] outs).

(** The properties [output_variables_by_name] and
    [output_variables_by_type]. The source computes them on first use and
    caches them; the requested list is never reassigned, so the cached
    value is the computed one. *)
Definition output_variables_by_name {store} (pb : Playbook store)
  : gmap string requested := (_parse_output_variables (output_variables pb)).1.

Definition output_variables_by_type {store} (pb : Playbook store)
  : gmap string requested := (_parse_output_variables (output_variables pb)).2.

Definition check_output_variable {store} (pb : Playbook store)
  (variable : string) : bool :=
  bool_decide (is_Some (output_variables_by_name pb !! variable)).

(** ** Writing: [create], the strict creators, [create_output] *)

Section Write.
Context {store : Type} `{!PlaybookABC store}.

Definition create (key : option string) (value : value)
  : M (Playbook store) Py.value :=
  match key with
  | None => ret VNone
  | Some key =>
      let key := strip key in
      parsed_key <- lift (parse_variable (Some (strip key))) ;;
      variable_type <-
        match parsed_key with
        | Some p => ret (type p)
        | None => raise (TypeError "'NoneType' object is not subscriptable")
        end ;;
      if py_in variable_type _variable_single_types then
        on_store (_create key value)
      else if py_in variable_type _variable_array_types then
        on_store (_create_array key value)
      else on_store (create_raw key value)
  end.

(** The write path [create] takes for a type. *)
Definition write_path (t : string) : string → value → M store value :=
  if py_in t _variable_single_types then _create
  else if py_in t _variable_array_types then _create_array
  else create_raw.

(** [f'The key provided ({key}) is not a {supported_variable_type} key.'] *)
Definition not_a_key (key supported : string) : exn :=
  RuntimeError ("The key provided (" +:+ key +:+ ") is not a " +:+ supported
                +:+ " key.").

(** The body shared by the seven creators that accept one type. *)
Definition create_strict (supported_variable_type : string)
  (write : string → value → M store Py.value) (key : string) (value : value)
  : M (Playbook store) Py.value :=
  t <- lift (variable_type (VStr key)) ;;
  if negb (bool_decide (t = supported_variable_type)) then
    raise (not_a_key key supported_variable_type)
  else on_store (write key value).

Definition create_binary := create_strict "Binary" _create.
Definition create_binary_array := create_strict "BinaryArray" _create_array.
Definition create_key_value := create_strict "KeyValue" _create.
Definition create_key_value_array :=
  create_strict "KeyValueArray" _create_array.
Definition create_string := create_strict "String" _create.
Definition create_string_array := create_strict "StringArray" _create_array.
Definition create_tc_entity := create_strict "TCEntity" _create.

(** The types [create_tc_entity_array] accepts, and the list as the
    f-string of its error message prints it. *)
Definition tc_entity_array_types : list string :=
  ["TCEntityArray"; "TCEnhancedEntity"; "TCEnhancedEntityArray"].

Definition tc_entity_array_repr : string :=
  "['TCEntityArray', 'TCEnhancedEntity', 'TCEnhancedEntityArray']".

Definition create_tc_entity_array (key : string) (value : value)
  : M (Playbook store) Py.value :=
  t <- lift (variable_type (VStr key)) ;;
  if negb (py_in t tc_entity_array_types) then
    raise (not_a_key key tc_entity_array_repr)
  else on_store (_create_array key value).

(** [f'{variable_type}'] for an optional string. *)
Definition fmt_optional (t : option string) : string := default "None" t.

Definition create_output (key : option string) (value : value)
  (variable_type : option string) : M (Playbook store) Py.value :=
  λ pb,
  if bool_decide (output_variables_by_type pb = ∅) then (Ok VNone, pb)
  else
    match key with
    | None => (Ok VNone, pb)
    | Some key =>
        if is_none value then (Ok VNone, pb)
        else
          let key := strip key in
          let key_type := key +:+ "-" +:+ fmt_optional variable_type in
          match output_variables_by_type pb !! key_type with
          | Some v => create (Some (variable v)) value pb
          | None =>
              match output_variables_by_name pb !! key, variable_type with
              | Some v, None => create (Some (variable v)) value pb
              | _, _ => (Ok VNone, pb)
              end
          end
    end.

End Write.

(** ** Buffering: [add_output] and [write_output] *)

(** [type(v).__name__], for the message of an [AttributeError]. *)
Definition type_name (v : value) : string :=
  match v with
  | VNone => "NoneType"
  | VBool _ => "bool"
  | VInt _ => "int"
  | VStr _ => "str"
  | VBytes _ => "bytes"
  | VList _ => "list"
  | VDict _ => "dict"
  end.

Definition no_attribute (v : value) (attr : string) : exn :=
  AttributeError ("'" +:+ type_name v +:+ "' object has no attribute '"
                  +:+ attr +:+ "'").

(** [parse_variable] on an argument of any type. The guard of the source
    is [variable is not None] only: a value that is neither null nor a
    string goes to [variable.strip()], which [bytes] alone has, and the
    stripped [bytes] then go to [re.match] with the text pattern of the
    grammar. *)
Definition parse_variable_of (variable : value)
  : result (option parsed_variable) :=
  match variable with
  | VNone => parse_variable None
  | VStr s => parse_variable (Some s)
  | VBytes _ =>
      Raise (TypeError "cannot use a string pattern on a bytes-like object")
  | other => Raise (no_attribute other "strip")
  end.

(** [record.setdefault('key', key)] and [record.setdefault('type', t)]. *)
Definition setdefault_key_type (r : output_record) (key t : string)
  : output_record :=
  {| rec_key := Some (default key (rec_key r));
     rec_type := Some (default t (rec_type r));
     rec_value := rec_value r |}.

(** [record.setdefault('value', []).extend(value)] when [value] is a list,
    [record.setdefault('value', []).append(value)] when it is not. The
    field is created before the method is looked up on what it holds. The
    list is followed by its contents: the record of the call is given the
    extended contents. [Obj.add_output] follows the list object that is
    extended in place. *)
Definition extend_value (r : output_record) (value : value)
  : result unit * output_record :=
  let held := default (VList []) (rec_value r) in
  let r' := {| rec_key := rec_key r; rec_type := rec_type r;
               rec_value := Some held |} in
  match held with
  | VList l =>
      let items := match value with VList vs => vs | v => [v] end in
      (Ok tt, {| rec_key := rec_key r; rec_type := rec_type r;
                 rec_value := Some (VList (l ++ items)) |})
  | other =>
      (Raise (no_attribute other (if is_list value then "extend" else "append")),
       r')
  end.

Section Buffer.
Context {store : Type} `{!PlaybookABC store}.

(** Each record is followed by the contents of its value, which is what
    the call leaves under its own index. A list object that another
    record or the caller also holds is the matter of [Obj.add_output]. *)
Definition add_output (key : string) (value : value) (variable_type : string)
  (append_array : bool) : M (Playbook store) unit :=
  λ pb,
  let index := key +:+ "-" +:+ variable_type in
  let d := Dict.setdefault (output_data pb) index empty_record in
  let pb := set_output_data pb d in
  let is_array := py_in variable_type _variable_array_types in
  if is_none value && negb is_array then (Ok tt, pb)
  else if is_none value && (negb append_array && is_array) then (Ok tt, pb)
  else if is_array && append_array then
    match Dict.get d index with
    | None => (Raise (KeyError index), pb)
    | Some r =>
        let '(res, r') :=
          extend_value (setdefault_key_type r key variable_type) value in
        (res, set_output_data pb (Dict.set d index r'))
    end
  else
    (Ok tt,
     set_output_data pb
       (Dict.set d index {| rec_key := Some key; rec_type := Some variable_type;
                            rec_value := Some value |})).

(** The call [write_output] makes for one buffered record. *)
Definition flush_record (data : output_record)
  : M (Playbook store) Py.value :=
  create_output (rec_key data) (get_value data) (rec_type data).

Definition write_output : M (Playbook store) unit :=
  λ pb, for_each flush_record (Dict.values (output_data pb)) pb.

End Buffer.

(** ** Reading: [read], [read_array], [read_choice] *)

Section Read.
Context {store : Type} `{!PlaybookABC store}.

(** The end of [read]: the data as a list when [array] is set. *)
Definition as_array (array : bool) (value : Py.value) : Py.value :=
  if array && negb (is_list value) then
    if negb (is_none value) then VList [value] else VList []
  else value.

(** The value [read] holds before its final array coercion. *)
Definition read_value (key : value) (embedded : bool)
  : M (Playbook store) value :=
  match key with
  | VStr s =>
      let value := s in
      let key := strip s in
      variable_type <- lift (variable_type (VStr key)) ;;
      if Re.is_match key then
        if py_in variable_type _variable_single_types then
          on_store (_read key embedded)
        else if py_in variable_type _variable_array_types then
          on_store (_read_array key embedded)
        else on_store (read_raw key)
      else
        let value :=
          if bool_decide (variable_type = "String")
          then Re.sub_escaped (Re.sub_space false value)
          else value in
        if embedded then on_store (_read_embedded (VStr value))
        else ret (VStr value)
  | _ => ret key
  end.

Definition read (key : value) (array embedded : bool)
  : M (Playbook store) value :=
  value <- read_value key embedded ;;
  ret (as_array array value).

Definition read_array (key : value) (embedded : bool)
  : M (Playbook store) value :=
  read key true embedded.

Definition read_choice (key : option string) (alt_key : value)
  : M (Playbook store) value :=
  match key with
  | None => ret VNone
  | Some k =>
      if bool_decide (strip k = "-- Select --") then ret VNone
      else if bool_decide (strip k = "-- Variable Input --")
      then read alt_key false true
      else read (VStr k) false true
  end.

End Read.

(** ** The typed readers *)

Section TypedReaders.
Context {store : Type} `{!PlaybookABC store}.

Definition read_key_value (key : string) (embedded : bool)
  : M (Playbook store) value := on_store (_read key embedded).

Definition read_key_value_array (key : string) (embedded : bool)
  : M (Playbook store) value := on_store (_read_array key embedded).

Definition read_string (key : string) (embedded : bool)
  : M (Playbook store) value := on_store (_read key embedded).

Definition read_string_array (key : string) (embedded : bool)
  : M (Playbook store) value := on_store (_read_array key embedded).

Definition read_tc_entity (key : string) (embedded : bool)
  : M (Playbook store) value := on_store (_read key embedded).

Definition read_tc_entity_array (key : string) (embedded : bool)
  : M (Playbook store) value := on_store (_read_array key embedded).

End TypedReaders.

(** ** Entity fields: [_entity_field] and its three callers *)

(** [s.lower()] on ASCII text. *)
Definition lower_char (c : ascii) : ascii :=
  if is_upper c then ascii_of_N (code c + 32) else c.

Fixpoint lower (s : string) : string :=
  match s with
  | EmptyString => EmptyString
  | String c s' => String (lower_char c) (lower s')
  end.

(** The entry of a dictionary under a string key. *)
Fixpoint dict_get (d : list (string * value)) (k : string) : option value :=
  match d with
  | [] => None
  | (k', v) :: d' => if decide (k' = k) then Some v else dict_get d' k
  end.

(** [i.get(k, default)]: a dictionary answers (a [None] key is in no
    dictionary of string keys), any other value has no [get]. *)
Definition py_get (i : value) (k : option string) (dflt : value)
  : result value :=
  match i with
  | VDict d => Ok (default dflt (k ≫= dict_get d))
  | other => Raise (no_attribute other "get")
  end.

Definition not_subscriptable (v : value) : exn :=
  TypeError ("'" +:+ type_name v +:+ "' object is not subscriptable").

Definition not_iterable (v : value) : exn :=
  TypeError ("'" +:+ type_name v +:+ "' object is not iterable").

(** The truth value of [v] together with [v[0]]: nothing when [v] is
    false ([not v]), and what [v[0]] gives when [v] is true. *)
Definition truthy_first (v : value) : option (result value) :=
  match v with
  | VNone => None
  | VBool false => None
  | VBool true => Some (Raise (not_subscriptable v))
  | VInt z => if decide (z = 0%Z) then None
              else Some (Raise (not_subscriptable v))
  | VStr EmptyString => None
  | VStr (String c _) => Some (Ok (VStr (String c EmptyString)))
  | VBytes EmptyString => None
  | VBytes (String c _) => Some (Ok (VInt (Z.of_N (code c))))
  | VList [] => None
  | VList (x :: _) => Some (Ok x)
  | VDict [] => None
  | VDict (_ :: _) => Some (Raise (KeyError "0"))
  end.

Fixpoint chars (s : string) : list ascii :=
  match s with
  | EmptyString => []
  | String c s' => c :: chars s'
  end.

(** The items [for i in v] runs over. *)
Definition py_iter (v : value) : result (list value) :=
  match v with
  | VList l => Ok l
  | VStr s => Ok (map (λ c, VStr (String c EmptyString)) (chars s))
  | VBytes b => Ok (map (λ c, VInt (Z.of_N (code c))) (chars b))
  | VDict d => Ok (map (λ kv, VStr kv.1) d)
  | other => Raise (not_iterable other)
  end.

(** A list comprehension [[f(i) for i in l]]: the first exception ends it. *)
Fixpoint comprehension (f : value → result value) (l : list value)
  : result (list value) :=
  match l with
  | [] => Ok []
  | i :: l' =>
      match f i with
      | Raise e => Raise e
      | Ok x =>
          match comprehension f l' with
          | Raise e => Raise e
          | Ok xs => Ok (x :: xs)
          end
      end
  end.

(** [[i.get(field, default) for i in read_results]]. *)
Definition project (read_results : value) (field : option string)
  (dflt : value) : result value :=
  match py_iter read_results with
  | Raise e => Raise e
  | Ok items =>
      match comprehension (λ i, py_get i field dflt) items with
      | Raise e => Raise e
      | Ok values => Ok (VList values)
      end
  end.

Definition invalid_entity_type (entity_type : option string) : exn :=
  RuntimeError ("Invalid entity_type (" +:+ fmt_optional entity_type +:+
                "). Valid options: ['group', 'indicator'].").

(** The renamed field and the nested list of a [tcEnhancedEntityArray]. *)
Definition enhanced_entity (first : result value) (field : string)
  (entity_type : option string) : result (option string * value) :=
  match
    (if bool_decide (entity_type = Some "indicator") &&
        bool_decide (field = "value") then Ok (Some "summary")
     else if bool_decide (entity_type = Some "group") &&
             bool_decide (field = "value") then Ok (Some "name")
     else if negb (bool_decide (entity_type = Some "group") ||
                   bool_decide (entity_type = Some "indicator"))
     then Raise (invalid_entity_type entity_type)
     else Ok None)
  with
  | Raise e => Raise e
  | Ok enhanced_entity_field =>
      match first with
      | Raise e => Raise e
      | Ok first =>
          match py_get first entity_type (VList []) with
          | Raise e => Raise e
          | Ok nested => Ok (enhanced_entity_field, nested)
          end
      end
  end.

Section EntityFields.
Context {store : Type} `{!PlaybookABC store}.

Definition _entity_field (key : value) (field : string)
  (entity_type : option string) (dflt : value) : M (Playbook store) value :=
  read_results <- read key true true ;;
  match truthy_first read_results with
  | None => ret (VList [])
  | Some first =>
      t <- lift (variable_type key) ;;
      let variable_type := lower t in
      nested <-
        (if bool_decide (variable_type = "tcenhancedentityarray")
         then lift (enhanced_entity first field entity_type)
         else ret (None, read_results)) ;;
      let '(enhanced_entity_field, read_results) := nested in
      let is_tc_enhanced :=
        match enhanced_entity_field with
        | Some _ => py_in variable_type
                      ["tcenhancedentity"; "tcenhancedentityarray"]
        | None => false
        end in
      let is_tc_entity := py_in variable_type ["tcentity"; "tcentityarray"] in
      if is_tc_enhanced then
        lift (project read_results enhanced_entity_field dflt)
      else if is_tc_entity then
        lift (project read_results (Some field) dflt)
      else ret read_results
  end.

Definition read_indicator_values (key : value) (dflt : value)
  : M (Playbook store) value :=
  _entity_field key "value" (Some "indicator") dflt.

Definition read_group_values (key : value) (dflt : value)
  : M (Playbook store) value :=
  _entity_field key "value" (Some "group") dflt.

Definition read_group_ids (key : value) (dflt : value)
  : M (Playbook store) value :=
  _entity_field key "id" (Some "group") dflt.

End EntityFields.

(** ** [delete] *)

(** The [delete] of the key-value store the instance holds, on the store
    of the context of the instance. *)
Class KeyValueStore (store : Type) : Type := {
  kv_delete : string → M store value
}.

Definition delete {store : Type} `{!KeyValueStore store}
  (key : option string) : M (Playbook store) value :=
  match key with
  | None => ret VNone
  | Some key => on_store (kv_delete (strip key))
  end.

(** ** A store to run the methods on *)

(** Modelled from the spec: an adapter after the contract
    [get(context, key)] / [put(context, key, value)] of one context, kept
    in memory: every write path puts the value under the key and
    acknowledges with ["OK"], every read path gets what is under the key
    ([None] when nothing is). Embedded references are not resolved by it. *)
Definition memory : Type := gmap string value.

Definition memory_put (key : string) (v : value) : M memory value :=
  λ σ, (Ok (VStr "OK"), <[key := v]> σ).

Definition memory_get (key : string) : M memory value :=
  λ σ, (Ok (default VNone (σ !! key)), σ).

#[export] Instance memory_abc : PlaybookABC memory := {|
  _create := memory_put;
  _create_array := memory_put;
  create_raw := memory_put;
  _read := λ key _, memory_get key;
  _read_array := λ key _, memory_get key;
  read_raw := memory_get;
  _read_embedded := λ v, ret v
|}.

(** Modelled from the spec: [delete(context, key)] of the same adapter:
    the key is removed, and the acknowledgement is the number of keys
    removed. *)
Definition memory_delete (key : string) : M memory value :=
  λ σ, (Ok (VInt (if σ !! key is Some _ then 1 else 0)), base.delete key σ).

#[export] Instance memory_kv : KeyValueStore memory := {|
  kv_delete := memory_delete
|}.

(** An instance over [memory] with nothing buffered and nothing stored. *)
Definition new_playbook (outs : option (list string)) : Playbook memory :=
  MkPlaybook outs [] ∅.

(** ** The variable grammar as the specification words it *)

(** The fields of a variable: a job id of digits, a name over
    [[A-Za-z0-9_.\-]] and a type token of word characters, none empty. *)
Definition wf_fields (job_id name type : string) : bool :=
  bool_decide (job_id ≠ "") && all_chars is_digit job_id &&
  bool_decide (name ≠ "") && all_chars is_name_char name &&
  bool_decide (type ≠ "") && all_chars is_word type.

(** The string [#App:<job_id>:<name>!<type>]. *)
Definition variable_string (job_id name type : string) : string :=
  "#App:" +:+ job_id +:+ ":" +:+ name +:+ "!" +:+ type.

(** [s] is a string of the grammar with these fields. *)
Definition is_variable_of (s job_id name type : string) : Prop :=
  wf_fields job_id name type = true ∧ s = variable_string job_id name type.

Definition in_grammar (s : string) : Prop :=
  ∃ job_id name type, is_variable_of s job_id name type.

(** Every entry of the index holds a string of the requested list that is,
    once stripped, a variable of the grammar, filed under its name and
    under its name-type composite. *)
Definition index_sound (outs : list string) (ix : index) : Prop :=
  (∀ k v, ix.1 !! k = Some v →
     variable v ∈ outs ∧
     ∃ j t, is_variable_of (strip (variable v)) j k t) ∧
  (∀ kt v, ix.2 !! kt = Some v →
     variable v ∈ outs ∧
     ∃ j n t, is_variable_of (strip (variable v)) j n t ∧
              kt = n +:+ "-" +:+ t).

(** ** What an appending [add_output] works on *)

(** The elements a value contributes to a buffered list: its own elements
    when it is a list, itself otherwise. *)
Definition contributed (v : value) : list value :=
  match v with VList vs => vs | _ => [v] end.

(** The list buffered under [index] that an appending [add_output] would
    extend: the empty list when no record or no value is buffered there,
    and none when the buffered value is not a list. *)
Definition buffered_list (d : Dict.t output_record) (index : string)
  : option (list value) :=
  match Dict.get d index with
  | None => Some []
  | Some r =>
      match rec_value r with
      | None => Some []
      | Some (VList l) => Some l
      | Some _ => None
      end
  end.

(** ** Where a literal escape can match *)

(** Whether the character before the end of [s] is a backslash, [prev]
    telling it for the character before [s]. *)
Fixpoint ends_with_backslash (prev : bool) (s : string) : bool :=
  match s with
  | EmptyString => prev
  | String c s' => ends_with_backslash (bool_decide (c = "\"%char)) s'
  end.

(** ** Read paths and the linked index *)

Section ReadPath.
Context {store : Type} `{!PlaybookABC store}.

(** The read path [read] takes for a type. *)
Definition read_path (t : string) : string → bool → M store value :=
  if py_in t _variable_single_types then _read
  else if py_in t _variable_array_types then _read_array
  else λ key _, read_raw key.

End ReadPath.

(** Every name-type entry of the index has a bare-name entry, and every
    bare-name entry is also the name-type entry of its own type. *)
Definition index_linked (ix : index) : Prop :=
  (∀ kt v, ix.2 !! kt = Some v →
     ∃ j n t, is_variable_of (strip (variable v)) j n t ∧
              kt = n +:+ "-" +:+ t ∧ is_Some (ix.1 !! n)) ∧
  (∀ n v, ix.1 !! n = Some v →
     ∃ j t, is_variable_of (strip (variable v)) j n t ∧
            ix.2 !! (n +:+ "-" +:+ t) = Some v).

(** ** The buffer with its list objects *)

(** [add_output] keeps the list object it is passed (line 99 puts the
    object of the caller in the record) and extends in place the list a
    record holds (lines 95 and 97), so a list held under two indexes, or
    by the caller too, changes for all of them. Here a list that may be
    held more than once is an object at a location of a heap. *)
Module Obj.

Definition loc : Type := positive.

(** A value as a caller passes it and as a record holds it: by its
    contents when nothing else holds it, or as the list object at a
    location. *)
Inductive ref : Type :=
| Own (v : value)
| At (l : loc).

(** The inner dictionary of [output_data]. *)
Record record : Type := Record {
  okey : option string;
  otype : option string;
  ovalue : option ref
}.

Definition empty_record : record :=
  {| okey := None; otype := None; ovalue := None |}.

Record buffer : Type := Buffer {
  output_data : Dict.t record;
  heap : gmap loc (list value)
}.

(** The elements of the list object at [l]. *)
Definition deref (h : gmap loc (list value)) (l : loc) : list value :=
  default [] (h !! l).

(** The value a reference stands for. *)
Definition contents (h : gmap loc (list value)) (a : ref) : value :=
  match a with
  | Own v => v
  | At l => VList (deref h l)
  end.

(** [value is None] and [isinstance(value, list)]. *)
Definition is_none (a : ref) : bool :=
  match a with Own v => Py.is_none v | At _ => false end.

Definition is_list (a : ref) : bool :=
  match a with Own v => Py.is_list v | At _ => true end.

Definition add_output (key : string) (value : ref) (variable_type : string)
  (append_array : bool) : M buffer unit :=
  λ b,
  let index := key +:+ "-" +:+ variable_type in
  let d := Dict.setdefault (output_data b) index empty_record in
  let h := heap b in
  let is_array := py_in variable_type _variable_array_types in
  if is_none value && negb is_array then (Ok tt, Buffer d h)
  else if is_none value && (negb append_array && is_array)
  then (Ok tt, Buffer d h)
  else if is_array && append_array then
    match Dict.get d index with
    | None => (Raise (KeyError index), Buffer d h)
    | Some r =>
        let held := default (Own (VList [])) (ovalue r) in
        let k := Some (default key (okey r)) in
        let t := Some (default variable_type (otype r)) in
        let items := contributed (contents h value) in
        match held with
        | Own (VList l) =>
            (Ok tt,
             Buffer (Dict.set d index
                       {| okey := k; otype := t;
                          ovalue := Some (Own (VList (l ++ items))) |}) h)
        | Own other =>
            (Raise (no_attribute other
                      (if is_list value then "extend" else "append")),
             Buffer (Dict.set d index
                       {| okey := k; otype := t; ovalue := Some held |}) h)
        | At l =>
            (Ok tt,
             Buffer (Dict.set d index
                       {| okey := k; otype := t; ovalue := Some held |})
                    (<[l := deref h l ++ items]> h))
        end
    end
  else
    (Ok tt,
     Buffer (Dict.set d index
               {| okey := Some key; otype := Some variable_type;
                  ovalue := Some value |}) h).

(** A record and a buffer by their contents. *)
Definition view_record (h : gmap loc (list value)) (r : record)
  : output_record :=
  {| rec_key := okey r; rec_type := otype r;
     rec_value := contents h <$> ovalue r |}.

Definition view (b : buffer) : Dict.t output_record :=
  map (λ kr, (kr.1, view_record (heap b) kr.2)) (output_data b).

(** No record under another index holds the list object that the record
    under [index] holds. *)
Definition unshared (b : buffer) (index : string) : Prop :=
  ∀ r l, Dict.get (output_data b) index = Some r → ovalue r = Some (At l) →
    ∀ index' r', (index', r') ∈ output_data b → index' ≠ index →
      ovalue r' ≠ Some (At l).

End Obj.

(** * Properties *)

(** ** Strings *)

#[local] Arguments String.append !_ _ / : simpl nomatch.

Lemma app_empty_r (s : string) : s +:+ "" = s.
Proof. induction s as [|c s IH]; simpl; [done | by rewrite IH]. Qed.

Lemma app_assoc' (a b c : string) : (a +:+ b) +:+ c = a +:+ (b +:+ c).
Proof. induction a as [|x a IH]; simpl; [done | by rewrite IH]. Qed.

Lemma word_not_space (c : ascii) : is_word c = true → is_space c = false.
Proof. destruct c as [[] [] [] [] [] [] [] []]; vm_compute; congruence. Qed.

Lemma space_not_hash (c : ascii) : is_space c = true → c ≠ "#"%char.
Proof. intros H ->. vm_compute in H. congruence. Qed.

Lemma digit_not_colon (c : ascii) : is_digit c = true → c ≠ ":"%char.
Proof. intros H ->. vm_compute in H. congruence. Qed.

Lemma name_char_not_bang (c : ascii) : is_name_char c = true → c ≠ "!"%char.
Proof. intros H ->. vm_compute in H. congruence. Qed.

Lemma word_not_dash (c : ascii) : is_word c = true → c ≠ "-"%char.
Proof. intros H ->. vm_compute in H. congruence. Qed.

Lemma lstrip_spaces (w v : string) :
  all_chars is_space w = true → lstrip (w +:+ v) = lstrip v.
Proof.
  induction w as [|c w IH]; simpl; [done |].
  intros [Hc Hw]%andb_true_iff. rewrite Hc. auto.
Qed.

Lemma rstrip_no_space (t : string) :
  all_chars (λ c, negb (is_space c)) t = true → rstrip t = t.
Proof.
  induction t as [|c t IH]; simpl; [done |].
  intros [Hc Ht]%andb_true_iff. rewrite (IH Ht).
  apply negb_true_iff in Hc. rewrite Hc. by destruct t.
Qed.

Lemma rstrip_app (a t : string) :
  t ≠ "" → rstrip t = t → rstrip (a +:+ t) = a +:+ t.
Proof.
  intros Hne Ht. induction a as [|c a IH]; simpl; [done |].
  rewrite IH. destruct (a +:+ t) eqn:E; [|done].
  destruct a; simpl in E; [contradiction | discriminate].
Qed.

Lemma all_word_no_space (t : string) :
  all_chars is_word t = true → all_chars (λ c, negb (is_space c)) t = true.
Proof.
  induction t as [|c t IH]; simpl; [done |].
  intros [Hc Ht]%andb_true_iff. rewrite (word_not_space c Hc). simpl. auto.
Qed.

(** ** The matcher against the grammar *)

Lemma span_app (p : ascii → bool) (a b : string) :
  all_chars p a = true →
  (∀ c b', b = String c b' → p c = false) →
  Re.span p (a +:+ b) = (a, b).
Proof.
  intros Ha Hb. induction a as [|x a IH]; simpl in *.
  - destruct b as [|c b']; [done |]. simpl. by rewrite (Hb c b' eq_refl).
  - apply andb_true_iff in Ha as [Hx Ha]. by rewrite Hx, (IH Ha).
Qed.

Lemma span_inv (p : ascii → bool) (s a b : string) :
  Re.span p s = (a, b) →
  s = a +:+ b ∧ all_chars p a = true ∧
  (∀ c b', b = String c b' → p c = false).
Proof.
  revert a b. induction s as [|x s IH]; simpl; intros a b H.
  - by injection H as <- <-.
  - destruct (p x) eqn:Hx.
    + destruct (Re.span p s) as [a' b'] eqn:E. injection H as <- <-.
      destruct (IH a' b' eq_refl) as (-> & Ha & Hb). simpl.
      by rewrite Hx, Ha.
    + injection H as <- <-. split; [done |]. split; [done |].
      by intros c b' [= -> ->].
Qed.

Lemma literal_app (pre s : string) : Re.literal pre (pre +:+ s) = Some s.
Proof.
  induction pre as [|c pre IH]; simpl; [done |].
  by rewrite decide_True.
Qed.

Lemma literal_inv (pre s r : string) :
  Re.literal pre s = Some r → s = pre +:+ r.
Proof.
  revert s. induction pre as [|c pre IH]; simpl; intros s H.
  - by injection H as ->.
  - destruct s as [|x s]; [done |]. case_decide; [|done].
    subst. by rewrite (IH s H).
Qed.

Lemma wf_fields_inv (j n t : string) :
  wf_fields j n t = true →
  j ≠ "" ∧ all_chars is_digit j = true ∧ n ≠ "" ∧
  all_chars is_name_char n = true ∧ t ≠ "" ∧ all_chars is_word t = true.
Proof.
  unfold wf_fields. rewrite !andb_true_iff, !bool_decide_eq_true. tauto.
Qed.

Lemma non_empty_ok (s : string) : s ≠ "" → Re.non_empty s = Some s.
Proof. by destruct s. Qed.

Lemma non_empty_inv (s r : string) : Re.non_empty s = Some r → s ≠ "".
Proof. by destruct s. Qed.

(** The pattern reads a string of the grammar whole, up to a rest that
    does not continue the type token. *)
Lemma variable_pattern_app (j n t rest : string) :
  wf_fields j n t = true →
  (∀ c r, rest = String c r → is_word c = false) →
  Re.variable_pattern (variable_string j n t +:+ rest) =
    Some ({| Re.group0 := variable_string j n t; Re.group2 := j;
             Re.group3 := n; Re.group4 := t |}, rest).
Proof.
  intros (Hj & Dj & Hn & Dn & Ht & Dt)%wf_fields_inv Hrest.
  unfold Re.variable_pattern, variable_string.
  rewrite !app_assoc', literal_app. simpl.
  rewrite (span_app is_digit j); [|done|].
  2:{ intros c b' [= <- _]. done. }
  rewrite (non_empty_ok j Hj). simpl.
  rewrite (span_app is_name_char n); [|done|].
  2:{ intros c b' [= <- _]. done. }
  rewrite (non_empty_ok n Hn). simpl.
  rewrite (span_app is_word t); [|done|done].
  by rewrite (non_empty_ok t Ht).
Qed.

Lemma variable_pattern_inv (s rest : string) (g : Re.groups) :
  Re.variable_pattern s = Some (g, rest) →
  wf_fields (Re.group2 g) (Re.group3 g) (Re.group4 g) = true ∧
  Re.group0 g = variable_string (Re.group2 g) (Re.group3 g) (Re.group4 g) ∧
  s = Re.group0 g +:+ rest.
Proof.
  unfold Re.variable_pattern. intros H.
  destruct (Re.literal "#App:" s) as [r0|] eqn:L0; cbn -[Re.literal Re.span Re.non_empty String.append] in H; [|done].
  destruct (Re.span is_digit r0) as [j r1] eqn:S1.
  destruct (Re.non_empty j) eqn:Nj; cbn -[Re.literal Re.span Re.non_empty String.append] in H; [|done].
  destruct (Re.literal ":" r1) as [r2|] eqn:L1; cbn -[Re.literal Re.span Re.non_empty String.append] in H; [|done].
  destruct (Re.span is_name_char r2) as [n r3] eqn:S2.
  destruct (Re.non_empty n) eqn:Nn; cbn -[Re.literal Re.span Re.non_empty String.append] in H; [|done].
  destruct (Re.literal "!" r3) as [r4|] eqn:L2; cbn -[Re.literal Re.span Re.non_empty String.append] in H; [|done].
  destruct (Re.span is_word r4) as [t r5] eqn:S3.
  destruct (Re.non_empty t) eqn:Nt; cbn -[Re.literal Re.span Re.non_empty String.append] in H; [|done].
  injection H as <- <-. simpl.
  apply literal_inv in L0, L1, L2.
  apply span_inv in S1 as (E1 & D1 & _), S2 as (E2 & D2 & _),
    S3 as (E3 & D3 & _).
  apply non_empty_inv in Nj, Nn, Nt.
  split; [|split; [done |]].
  - unfold wf_fields. rewrite D1, D2, D3.
    by rewrite (bool_decide_eq_true_2 _ Nj), (bool_decide_eq_true_2 _ Nn),
      (bool_decide_eq_true_2 _ Nt).
  - subst. unfold variable_string.
    by repeat (progress (rewrite ?app_assoc'; simpl)).
Qed.

(** [re.match] accepts exactly the strings of the grammar and reads their
    fields. *)
Lemma match_variable_grammar (s j n t : string) :
  is_variable_of s j n t →
  Re.match_variable s =
    Some {| Re.group0 := s; Re.group2 := j; Re.group3 := n; Re.group4 := t |}.
Proof.
  intros [Hwf ->]. unfold Re.match_variable.
  rewrite <- (app_empty_r (variable_string j n t)) at 1.
  by rewrite variable_pattern_app.
Qed.

Lemma match_variable_inv (s : string) (g : Re.groups) :
  Re.match_variable s = Some g →
  Re.group0 g = s ∧
  is_variable_of s (Re.group2 g) (Re.group3 g) (Re.group4 g).
Proof.
  unfold Re.match_variable. intros H.
  destruct (Re.variable_pattern s) as [[g' rest]|] eqn:E; [|done].
  simpl in H. destruct rest; [|done]. injection H as ->.
  apply variable_pattern_inv in E as (Hwf & H0 & Hs).
  rewrite app_empty_r in Hs. split; [done |]. split; [done |]. congruence.
Qed.

Lemma is_match_grammar (s : string) : Re.is_match s = true ↔ in_grammar s.
Proof.
  unfold Re.is_match. split.
  - destruct (Re.match_variable s) as [g|] eqn:E; [|done]. intros _.
    apply match_variable_inv in E as [_ E]. by eexists _, _, _.
  - intros (j & n & t & H). by rewrite (match_variable_grammar _ _ _ _ H).
Qed.

(** On a string [re.match] accepts, [re.search] finds the same groups. *)
Lemma search_of_match (s : string) (g : Re.groups) :
  Re.match_variable s = Some g → Re.search_variable s = Some g.
Proof.
  unfold Re.match_variable. intros H.
  destruct (Re.variable_pattern s) as [[g' rest]|] eqn:E; [|done].
  simpl in H. destruct rest; [|done]. injection H as ->.
  destruct s; cbn [Re.search_variable]; by rewrite E.
Qed.

(** A string of the grammar has no white space at either end. *)
Lemma strip_grammar (s : string) : in_grammar s → strip s = s.
Proof.
  intros (j & n & t & Hwf & ->).
  apply wf_fields_inv in Hwf as (_ & _ & _ & _ & Ht & Dt).
  assert (variable_string j n t =
          ("#App:" +:+ j +:+ ":" +:+ n +:+ "!") +:+ t) as Hsplit.
  { unfold variable_string.
    by repeat (progress (rewrite ?app_assoc'; simpl)). }
  unfold strip.
  replace (lstrip (variable_string j n t)) with (variable_string j n t)
    by done.
  rewrite Hsplit. apply rstrip_app; [done |].
  by apply rstrip_no_space, all_word_no_space.
Qed.


(** ** [is_variable], [parse_variable] and [variable_type] *)

Lemma is_match_false (s : string) : ¬ in_grammar s → Re.is_match s = false.
Proof.
  intros H. destruct (Re.is_match s) eqn:E; [|done].
  by apply is_match_grammar in E.
Qed.

Lemma search_groups_grammar (s j n t : string) :
  is_variable_of s j n t →
  search_groups s =
    Ok {| Re.group0 := s; Re.group2 := j; Re.group3 := n; Re.group4 := t |}.
Proof.
  intros H. unfold search_groups.
  by rewrite (search_of_match _ _ (match_variable_grammar _ _ _ _ H)).
Qed.

Lemma is_variable_grammar (s : string) :
  is_variable (VStr s) = true ↔ in_grammar s.
Proof.
  simpl. rewrite <- is_match_grammar. by destruct (Re.is_match s).
Qed.

(** What the two stripping functions return is decided by the stripped
    string alone. *)
Lemma parse_variable_stripped (s j n t : string) :
  is_variable_of (strip s) j n t →
  parse_variable (Some s) =
    Ok (Some {| root := strip s; job_id := j; name := n; type := t |}).
Proof.
  intros H. unfold parse_variable.
  rewrite (proj2 (is_match_grammar _)) by by eexists _, _, _.
  by rewrite (search_groups_grammar _ _ _ _ H).
Qed.

Lemma parse_variable_literal (s : string) :
  ¬ in_grammar (strip s) → parse_variable (Some s) = Ok None.
Proof. intros H. unfold parse_variable. by rewrite is_match_false. Qed.

Lemma variable_type_stripped (s j n t : string) :
  is_variable_of (strip s) j n t → variable_type (VStr s) = Ok t.
Proof.
  intros H. unfold variable_type.
  rewrite (proj2 (is_match_grammar _)) by by eexists _, _, _.
  by rewrite (search_groups_grammar _ _ _ _ H).
Qed.

Lemma variable_type_literal (s : string) :
  ¬ in_grammar (strip s) → variable_type (VStr s) = Ok "String".
Proof. intros H. unfold variable_type. by rewrite is_match_false. Qed.

(** Neither function raises: the [re.search] they run after a successful
    [re.match] always finds the match. *)
Lemma parse_variable_total (v : option string) :
  ∃ r, parse_variable v = Ok r.
Proof.
  destruct v as [s|]; [|by eexists].
  destruct (Re.is_match (strip s)) eqn:E.
  - apply is_match_grammar in E as (j & n & t & H).
    eexists. by apply parse_variable_stripped.
  - eexists. unfold parse_variable. by rewrite E.
Qed.

Lemma variable_type_total (v : value) : ∃ t, variable_type v = Ok t.
Proof.
  destruct v as [| | |s| | |]; try by eexists.
  destruct (Re.is_match (strip s)) eqn:E.
  - apply is_match_grammar in E as (j & n & t & H).
    eexists. by eapply variable_type_stripped.
  - eexists. unfold variable_type. by rewrite E.
Qed.

Lemma not_grammar_stripped (s : string) :
  ¬ in_grammar (strip s) → ¬ in_grammar s.
Proof. intros H Hs. by rewrite (strip_grammar s Hs) in H. Qed.


(** C2, the variable grammar. A string of the grammar
    [#App:<digits>:<name>!<type>] is a variable and parses to exactly its
    job id, name and type. Every string that is not of the grammar is not
    a variable. A string whose white-space-stripped form is not of the
    grammar parses to null and has the default type [String]. Any input
    that is not a string is not a variable and has the default type
    [String]; the null input parses to null, and any other input that is
    not a string makes the parse raise. *)
Theorem variable_grammar_classification :
  (∀ s j n t, is_variable_of s j n t →
     is_variable (VStr s) = true ∧
     parse_variable (Some s) =
       Ok (Some {| root := s; job_id := j; name := n; type := t |}) ∧
     variable_type (VStr s) = Ok t) ∧
  (∀ s, ¬ in_grammar s → is_variable (VStr s) = false) ∧
  (∀ s, ¬ in_grammar (strip s) →
     parse_variable (Some s) = Ok None ∧
     variable_type (VStr s) = Ok "String") ∧
  (∀ v, is_str v = false →
     is_variable v = false ∧ variable_type v = Ok "String") ∧
  parse_variable None = Ok None ∧
  (∀ s, parse_variable_of (VStr s) = parse_variable (Some s)) ∧
  parse_variable_of VNone = Ok None ∧
  (∀ v, is_str v = false → v ≠ VNone → ∃ e, parse_variable_of v = Raise e).
Proof.
  split; [|split; [|split; [|split; [|split; [done |
    split; [done | split; [done |]]]]]]].
  - intros s j n t H.
    assert (strip s = s) as E by (apply strip_grammar; by eexists _, _, _).
    split; [apply is_variable_grammar; by eexists _, _, _ |]. split.
    + rewrite <- E at 2. apply parse_variable_stripped. by rewrite E.
    + eapply variable_type_stripped. by rewrite E.
  - intros s Hs. apply not_true_is_false. by rewrite is_variable_grammar.
  - intros s Hs. split;
      [by apply parse_variable_literal | by apply variable_type_literal].
  - intros v Hv. by destruct v.
  - intros v Hv Hn. destruct v; try done; by eexists.
Qed.

Lemma variable_grammar_classification_witness :
  (is_variable (VStr "#App:1234:output!String") = true ∧
   parse_variable (Some "#App:1234:output!String") =
     Ok (Some {| root := "#App:1234:output!String"; job_id := "1234";
                 name := "output"; type := "String" |}) ∧
   variable_type (VStr "#App:1234:output!String") = Ok "String") ∧
  is_variable (VStr "My Data") = false ∧
  (parse_variable (Some "My Data") = Ok None ∧
   variable_type (VStr "My Data") = Ok "String") ∧
  (is_variable (VInt 7) = false ∧ variable_type (VInt 7) = Ok "String") ∧
  ∃ e, parse_variable_of (VList []) = Raise e.
Proof.
  destruct variable_grammar_classification
    as (H1 & H2 & H3 & H4 & _ & _ & _ & H5).
  assert (¬ in_grammar (strip "My Data")) as Hs.
  { intros H%is_match_grammar. vm_compute in H. discriminate H. }
  split; [|split; [|split; [|split]]].
  - apply (H1 "#App:1234:output!String" "1234" "output" "String").
    split; reflexivity.
  - apply (H2 "My Data"). exact Hs.
  - apply (H3 "My Data"). exact Hs.
  - apply (H4 (VInt 7)). reflexivity.
  - apply (H5 (VList [])); [reflexivity | discriminate].
Defined.

(** C2 as stated fails on the string [ #App:1:a!Binary], a variable behind
    one space: it is not a string of the grammar and [is_variable] is
    false on it, yet it parses to its fields and has the type [Binary].
    It fails on the integer [7] too: the parse of an input that is not a
    string and not null raises where the claim has it return null. *)
Lemma variable_grammar_counterexample :
  let s := " #App:1:a!Binary" in
  (¬ in_grammar s ∧
   is_variable (VStr s) = false ∧
   parse_variable (Some s) =
     Ok (Some {| root := "#App:1:a!Binary"; job_id := "1"; name := "a";
                 type := "Binary" |}) ∧
   variable_type (VStr s) = Ok "Binary") ∧
  ¬ (∀ s, ¬ in_grammar s →
       parse_variable (Some s) = Ok None ∧
       variable_type (VStr s) = Ok "String") ∧
  parse_variable_of (VInt 7) =
    Raise (AttributeError "'int' object has no attribute 'strip'") ∧
  ¬ (∀ v, is_str v = false → parse_variable_of v = Ok None).
Proof.
  intros s.
  assert (¬ in_grammar s) as Hs.
  { intros Hg%is_match_grammar. vm_compute in Hg. discriminate Hg. }
  split; [by repeat split |]. split; [|split; [done |]].
  - intros H. destruct (H s Hs) as (Hp & _).
    vm_compute in Hp. discriminate Hp.
  - intros H. by specialize (H (VInt 7) eq_refl).
Qed.



(** ** [str.strip] is idempotent *)

Lemma rstrip_idem (s : string) : rstrip (rstrip s) = rstrip s.
Proof.
  induction s as [|c s IH]; simpl; [done |].
  destruct (rstrip s) as [|x r] eqn:E.
  - destruct (is_space c) eqn:Hc; simpl; [done | by rewrite Hc].
  - change (rstrip (String c (String x r)))
      with (match rstrip (String x r) with
            | "" => if is_space c then "" else String c ""
            | r' => String c r'
            end).
    by rewrite IH.
Qed.

Lemma rstrip_head (c : ascii) (s : string) :
  is_space c = false → ∃ r, rstrip (String c s) = String c r.
Proof.
  intros Hc. simpl. destruct (rstrip s); rewrite ?Hc; by eexists.
Qed.

Lemma lstrip_head (s : string) :
  lstrip s = "" ∨ ∃ c r, lstrip s = String c r ∧ is_space c = false.
Proof.
  induction s as [|c s IH]; simpl; [by left |].
  destruct (is_space c) eqn:Hc; [done |]. right. by eexists _, _.
Qed.

Lemma strip_idem (s : string) : strip (strip s) = strip s.
Proof.
  unfold strip. destruct (lstrip_head s) as [-> | (c & r & -> & Hc)]; [done |].
  destruct (rstrip_head c r Hc) as [r' E]. rewrite E.
  replace (lstrip (String c r')) with (String c r') by (simpl; by rewrite Hc).
  by rewrite <- E, rstrip_idem.
Qed.

(** ** The output request index *)

Lemma parse_output_variables_empty (outs : option (list string)) :
  default [] outs = [] → _parse_output_variables outs = (∅, ∅).
Proof. unfold _parse_output_variables. by intros ->. Qed.

Lemma index_variable_sound (outs : list string) (ix : index) (ov : string) :
  index_sound outs ix → index_sound (outs ++ [ov]) (index_variable ix ov).
Proof.
  intros [H1 H2]. unfold index_variable.
  assert (index_sound (outs ++ [ov]) ix) as Hweak.
  { split.
    - intros k v Hk. destruct (H1 k v Hk) as [Hin Hv].
      split; [apply elem_of_app; by left | done].
    - intros kt v Hk. destruct (H2 kt v Hk) as [Hin Hv].
      split; [apply elem_of_app; by left | done]. }
  destruct (Re.is_match (strip ov)) eqn:E.
  - apply is_match_grammar in E as (j & n & t & Hv).
    rewrite (parse_variable_stripped _ _ _ _ Hv). simpl. split; simpl.
    + intros k v. destruct (decide (n = k)) as [<-|Hne].
      * rewrite lookup_insert_eq. intros [= <-]. simpl.
        split; [apply elem_of_app; right; by apply list_elem_of_singleton |].
        by eexists _, _.
      * rewrite lookup_insert_ne by done. apply Hweak.
    + intros kt v. destruct (decide (n +:+ "-" +:+ t = kt)) as [<-|Hne].
      * rewrite lookup_insert_eq. intros [= <-]. simpl.
        split; [apply elem_of_app; right; by apply list_elem_of_singleton |].
        by eexists _, _, _.
      * rewrite lookup_insert_ne by done. apply Hweak.
  - rewrite parse_variable_literal; [done |].
    intros Hg%is_match_grammar. congruence.
Qed.

Lemma parse_output_variables_sound (outs : option (list string)) :
  index_sound (default [] outs) (_parse_output_variables outs).
Proof.
  unfold _parse_output_variables.
  induction (default [] outs) as [|ov l IH] using rev_ind.
  - split; intros ? ?; simpl; by rewrite lookup_empty.
  - rewrite foldl_app. simpl. by apply index_variable_sound.
Qed.

(** ** [create] *)

Section WriteProperties.
Context {store : Type} `{!PlaybookABC store}.
Implicit Types (pb : Playbook store) (value : Py.value).

Lemma create_null_key value pb : create None value pb = (Ok VNone, pb).
Proof. done. Qed.

(** A key that is a variable once stripped is written, under its stripped
    form, by the path of its type. *)
Lemma create_variable (key j n t : string) value pb :
  is_variable_of (strip key) j n t →
  create (Some key) value pb = on_store (write_path t (strip key) value) pb.
Proof.
  intros Hv. unfold create, bind, lift. cbv zeta. rewrite strip_idem.
  rewrite (parse_variable_stripped (strip key) j n t)
    by by rewrite strip_idem.
  unfold ret, write_path. cbn [type].
  by destruct (py_in t _variable_single_types),
    (py_in t _variable_array_types).
Qed.

(** A key that is not a variable makes [create] subscript [None]. *)
Lemma create_literal (key : string) value pb :
  ¬ in_grammar (strip key) →
  create (Some key) value pb =
    (Raise (TypeError "'NoneType' object is not subscriptable"), pb).
Proof.
  intros Hv. unfold create, bind, lift. cbv zeta. rewrite strip_idem.
  by rewrite parse_variable_literal by by rewrite strip_idem.
Qed.

(** The write path taken in each of the three cases of the dispatch. *)
Lemma write_path_single (t : string) :
  t ∈ _variable_single_types → write_path t = _create.
Proof.
  intros Ht. unfold write_path, py_in. by rewrite bool_decide_eq_true_2.
Qed.

Lemma write_path_array (t : string) :
  t ∉ _variable_single_types → t ∈ _variable_array_types →
  write_path t = _create_array.
Proof.
  intros Hs Ha. unfold write_path, py_in.
  by rewrite bool_decide_eq_false_2, bool_decide_eq_true_2.
Qed.

Lemma write_path_raw (t : string) :
  t ∉ _variable_single_types → t ∉ _variable_array_types →
  write_path t = create_raw.
Proof.
  intros Hs Ha. unfold write_path, py_in.
  by rewrite !bool_decide_eq_false_2.
Qed.

(** The dispatch of [create]: with a null key it returns null and leaves
    the instance as it is; with a key that is a variable once stripped it
    runs the scalar, array or raw write of the base class on the stripped
    key, by the type the key declares, and returns what that write
    returns. *)
Lemma create_dispatch (key j n t : string) value pb :
  is_variable_of (strip key) j n t →
  create None value pb = (Ok VNone, pb) ∧
  (t ∈ _variable_single_types →
     create (Some key) value pb = on_store (_create (strip key) value) pb) ∧
  (t ∉ _variable_single_types → t ∈ _variable_array_types →
     create (Some key) value pb =
       on_store (_create_array (strip key) value) pb) ∧
  (t ∉ _variable_single_types → t ∉ _variable_array_types →
     create (Some key) value pb = on_store (create_raw (strip key) value) pb).
Proof.
  intros Hv. split; [done |].
  rewrite (create_variable key j n t value pb Hv).
  split; [|split].
  - intros Ht. by rewrite write_path_single.
  - intros Hs Ha. by rewrite write_path_array.
  - intros Hs Ha. by rewrite write_path_raw.
Qed.

(** C3, the literal key: on the key ["plain"], which is not null and not
    a variable, [create] raises [TypeError] and writes nothing, whatever
    the value and the store. *)
Theorem create_plain_key_raises value pb :
  create (Some "plain") value pb =
    (Raise (TypeError "'NoneType' object is not subscriptable"), pb).
Proof.
  apply create_literal. intros Hg%is_match_grammar. vm_compute in Hg.
  discriminate Hg.
Qed.

End WriteProperties.

(** ** The strict creators *)

Section CreatorProperties.
Context {store : Type} `{!PlaybookABC store}.
Implicit Types (pb : Playbook store) (value : Py.value).

Lemma create_strict_mismatch (expected : string)
  (write : string → Py.value → M store Py.value) (key t : string) value pb :
  variable_type (VStr key) = Ok t → t ≠ expected →
  create_strict expected write key value pb =
    (Raise (not_a_key key expected), pb).
Proof.
  intros Ht Hne. unfold create_strict, bind, lift. rewrite Ht.
  by rewrite bool_decide_eq_false_2.
Qed.

Lemma create_strict_match (expected : string)
  (write : string → Py.value → M store Py.value) (key : string) value pb :
  variable_type (VStr key) = Ok expected →
  create_strict expected write key value pb = on_store (write key value) pb.
Proof.
  intros Ht. unfold create_strict, bind, lift. rewrite Ht.
  by rewrite bool_decide_eq_true_2.
Qed.

(** C7, the strict creators. When the type the key declares, as
    [variable_type] reads it from the key, is not the type a creator
    expects (for [create_tc_entity_array]: is none of [TCEntityArray],
    [TCEnhancedEntity], [TCEnhancedEntityArray]), the creator raises a
    [RuntimeError] whose message names the expected type, and the instance
    and its store are as before; [create_string] on a key declaring
    [Binary] is such a call. *)
Theorem strict_creators_reject_mismatch (key t : string) value pb :
  variable_type (VStr key) = Ok t →
  (t ≠ "Binary" →
     create_binary key value pb =
       (Raise (RuntimeError ("The key provided (" +:+ key +:+
                             ") is not a Binary key.")), pb)) ∧
  (t ≠ "BinaryArray" →
     create_binary_array key value pb =
       (Raise (RuntimeError ("The key provided (" +:+ key +:+
                             ") is not a BinaryArray key.")), pb)) ∧
  (t ≠ "KeyValue" →
     create_key_value key value pb =
       (Raise (RuntimeError ("The key provided (" +:+ key +:+
                             ") is not a KeyValue key.")), pb)) ∧
  (t ≠ "KeyValueArray" →
     create_key_value_array key value pb =
       (Raise (RuntimeError ("The key provided (" +:+ key +:+
                             ") is not a KeyValueArray key.")), pb)) ∧
  (t ≠ "String" →
     create_string key value pb =
       (Raise (RuntimeError ("The key provided (" +:+ key +:+
                             ") is not a String key.")), pb)) ∧
  (t ≠ "StringArray" →
     create_string_array key value pb =
       (Raise (RuntimeError ("The key provided (" +:+ key +:+
                             ") is not a StringArray key.")), pb)) ∧
  (t ≠ "TCEntity" →
     create_tc_entity key value pb =
       (Raise (RuntimeError ("The key provided (" +:+ key +:+
                             ") is not a TCEntity key.")), pb)) ∧
  (t ∉ ["TCEntityArray"; "TCEnhancedEntity"; "TCEnhancedEntityArray"] →
     create_tc_entity_array key value pb =
       (Raise (RuntimeError ("The key provided (" +:+ key +:+
         ") is not a ['TCEntityArray', 'TCEnhancedEntity', " +:+
         "'TCEnhancedEntityArray'] key.")), pb)) ∧
  (key = "#App:1:k!Binary" →
     create_string key value pb =
       (Raise (RuntimeError
          "The key provided (#App:1:k!Binary) is not a String key."), pb)).
Proof.
  intros Ht.
  unfold create_binary, create_binary_array, create_key_value,
    create_key_value_array, create_string, create_string_array,
    create_tc_entity.
  repeat (split;
    [intros Hne; by rewrite (create_strict_mismatch _ _ _ t) |]).
  split.
  - intros Hne. unfold create_tc_entity_array, bind, lift, py_in.
    rewrite Ht. by rewrite bool_decide_eq_false_2.
  - intros ->. by rewrite (create_strict_mismatch _ _ _ "Binary").
Qed.

End CreatorProperties.

Lemma strict_creators_reject_mismatch_witness :
  create_string "#App:1:k!Binary" (VStr "v") (new_playbook None) =
    (Raise (RuntimeError
       "The key provided (#App:1:k!Binary) is not a String key."),
     new_playbook None) ∧
  create_tc_entity_array "#App:1:k!TCEntity" (VList []) (new_playbook None) =
    (Raise (RuntimeError
       ("The key provided (#App:1:k!TCEntity) is not a " +:+
        "['TCEntityArray', 'TCEnhancedEntity', 'TCEnhancedEntityArray'] key.")),
     new_playbook None).
Proof.
  split.
  - apply (strict_creators_reject_mismatch "#App:1:k!Binary" "Binary");
      reflexivity.
  - apply (strict_creators_reject_mismatch "#App:1:k!TCEntity" "TCEntity");
      [reflexivity |].
    vm_compute. intros H. by repeat (inversion H as [|? ? ? H']; subst;
      clear H; rename H' into H).
Defined.

(** ** [create_output] *)

(** A name-type composite splits at its last dash: a type token has none. *)
Lemma all_word_app_dash (a b : string) :
  all_chars is_word (a +:+ "-" +:+ b) = false.
Proof.
  induction a as [|c a IH]; [done |].
  change (is_word c && all_chars is_word (a +:+ "-" +:+ b) = false).
  rewrite IH. by destruct (is_word c).
Qed.

Lemma composite_inj (n1 t1 n2 t2 : string) :
  all_chars is_word t1 = true → all_chars is_word t2 = true →
  n1 +:+ "-" +:+ t1 = n2 +:+ "-" +:+ t2 → n1 = n2 ∧ t1 = t2.
Proof.
  intros H1 H2. revert n2.
  induction n1 as [|c n1 IH]; intros [|c' n2] E.
  - simpl in E. by injection E as ->.
  - change (String "-" t1 = String c' (n2 +:+ "-" +:+ t2)) in E.
    injection E as <- ->. pose proof (all_word_app_dash n2 t2) as Hd.
    simpl in Hd. congruence.
  - change (String c (n1 +:+ "-" +:+ t1) = String "-" t2) in E.
    injection E as -> <-. pose proof (all_word_app_dash n1 t1) as Hd.
    simpl in Hd. congruence.
  - change (String c (n1 +:+ "-" +:+ t1) = String c' (n2 +:+ "-" +:+ t2))
      in E.
    injection E as -> E. by destruct (IH n2 E) as [-> ->].
Qed.

Section GateProperties.
Context {store : Type} `{!PlaybookABC store}.
Implicit Types (pb : Playbook store) (value : Py.value).

Lemma by_type_empty pb :
  default [] (output_variables pb) = [] → output_variables_by_type pb = ∅.
Proof.
  intros E. unfold output_variables_by_type.
  by rewrite parse_output_variables_empty.
Qed.

(** The string the index holds is one of the requested strings, and
    [create] writes it, stripped, by the path of its type. *)
Lemma create_requested_by_type pb (kt : string) (v : requested) value :
  output_variables_by_type pb !! kt = Some v →
  variable v ∈ default [] (output_variables pb) ∧
  ∃ j n t, is_variable_of (strip (variable v)) j n t ∧
    kt = n +:+ "-" +:+ t ∧
    create (Some (variable v)) value pb =
      on_store (write_path t (strip (variable v)) value) pb.
Proof.
  intros Hk.
  destruct (proj2 (parse_output_variables_sound (output_variables pb)) kt v Hk)
    as (Hin & j & n & t & Hv & ->).
  split; [done |]. exists j, n, t. by rewrite (create_variable _ j n t).
Qed.

Lemma create_requested_by_name pb (k : string) (v : requested) value :
  output_variables_by_name pb !! k = Some v →
  variable v ∈ default [] (output_variables pb) ∧
  ∃ j t, is_variable_of (strip (variable v)) j k t ∧
    create (Some (variable v)) value pb =
      on_store (write_path t (strip (variable v)) value) pb.
Proof.
  intros Hk.
  destruct (proj1 (parse_output_variables_sound (output_variables pb)) k v Hk)
    as (Hin & j & t & Hv).
  split; [done |]. exists j, t. by rewrite (create_variable _ j k t).
Qed.

(** C1, the requested-output gate. [create_output] returns null and
    leaves the instance and its store as they are when no output was
    requested (the list is empty or absent), when the key is null and when
    the value is null. Otherwise the key is stripped and looked up: an
    entry of the index under ["<key>-<type>"] is taken first; failing
    that, an entry under the bare key is taken only when the caller gave
    no type; failing both, the call returns null and changes nothing. On
    a match the call is [create] on the requested variable string the
    entry holds. *)
Theorem create_output_gate (key : option string) value
  (variable_type : option string) pb :
  (default [] (output_variables pb) = [] →
     create_output key value variable_type pb = (Ok VNone, pb)) ∧
  (key = None → create_output key value variable_type pb = (Ok VNone, pb)) ∧
  (value = VNone →
     create_output key value variable_type pb = (Ok VNone, pb)) ∧
  (∀ k, key = Some k → value ≠ VNone → output_variables_by_type pb ≠ ∅ →
     let by_type :=
       output_variables_by_type pb
         !! (strip k +:+ "-" +:+ fmt_optional variable_type) in
     let by_name := output_variables_by_name pb !! strip k in
     (∀ v, by_type = Some v →
        variable v ∈ default [] (output_variables pb) ∧
        create_output key value variable_type pb =
          create (Some (variable v)) value pb) ∧
     (∀ v, by_type = None → by_name = Some v → variable_type = None →
        variable v ∈ default [] (output_variables pb) ∧
        create_output key value variable_type pb =
          create (Some (variable v)) value pb) ∧
     (by_type = None → by_name = None ∨ variable_type ≠ None →
        create_output key value variable_type pb = (Ok VNone, pb))).
Proof.
  split; [|split; [|split]].
  - intros E. unfold create_output.
    by rewrite bool_decide_eq_true_2 by by apply by_type_empty.
  - intros ->. unfold create_output. by case_bool_decide.
  - intros ->. unfold create_output. case_bool_decide; [done |].
    by destruct key.
  - intros k -> Hv Hne by_type by_name. unfold create_output.
    rewrite bool_decide_eq_false_2 by done.
    replace (is_none value) with false by by destruct value.
    fold by_type by_name. split; [|split].
    + intros v Hbt. rewrite Hbt. split; [|done].
      by destruct (create_requested_by_type pb _ v value Hbt).
    + intros v -> Hbn ->. rewrite Hbn. split; [|done].
      by destruct (create_requested_by_name pb _ v value Hbn).
    + intros -> [Hbn | Hty].
      * by rewrite Hbn.
      * destruct by_name; [|done]. by destruct variable_type.
Qed.

(** An exact match writes the value under the stripped requested string,
    by the path of the type the caller named. *)
Lemma create_output_exact_match (k t : string) (v : requested) value pb :
  value ≠ VNone → all_chars is_word t = true →
  output_variables_by_type pb !! (strip k +:+ "-" +:+ t) = Some v →
  create_output (Some k) value (Some t) pb =
    on_store (write_path t (strip (variable v)) value) pb.
Proof.
  intros Hv Ht Hk.
  destruct (create_requested_by_type pb _ v value Hk)
    as (_ & j & n & t' & Hwf & E & Hc).
  assert (all_chars is_word t' = true) as Ht'.
  { destruct Hwf as [Hwf _].
    by apply wf_fields_inv in Hwf as (_ & _ & _ & _ & _ & ?). }
  destruct (composite_inj _ _ _ _ Ht Ht' E) as [_ <-].
  rewrite <- Hc. unfold create_output.
  rewrite bool_decide_eq_false_2.
  2:{ intros E0. by rewrite E0, lookup_empty in Hk. }
  replace (is_none value) with false by by destruct value.
  change (fmt_optional (Some t)) with t. by rewrite Hk.
Qed.

End GateProperties.

Lemma create_output_gate_witness :
  let pb := new_playbook (Some ["#App:7:x!String"]) in
  create_output (Some "x") (VStr "v") (Some "String") pb =
    create (Some "#App:7:x!String") (VStr "v") pb ∧
  create_output (Some " x ") (VStr "v") None pb =
    create (Some "#App:7:x!String") (VStr "v") pb ∧
  create_output (Some "x") (VStr "v") (Some "Binary") pb = (Ok VNone, pb) ∧
  create_output (Some "y") (VStr "v") None pb = (Ok VNone, pb) ∧
  create_output None (VStr "v") None pb = (Ok VNone, pb) ∧
  create_output (Some "x") VNone (Some "String") pb = (Ok VNone, pb) ∧
  create_output (Some "x") (VStr "v") (Some "String") (new_playbook None) =
    (Ok VNone, new_playbook None).
Proof.
  intros pb.
  assert (output_variables_by_type pb ≠ ∅) as Hne.
  { intros E. assert (output_variables_by_type pb !! "x-String" = None) as E'
      by by rewrite E. vm_compute in E'. discriminate E'. }
  split; [|split; [|split; [|split; [|split; [|split]]]]].
  - destruct (create_output_gate (Some "x") (VStr "v") (Some "String") pb)
      as (_ & _ & _ & H).
    destruct (H "x" eq_refl ltac:(discriminate) Hne) as (Hm & _ & _).
    apply (Hm {| variable := "#App:7:x!String" |}). by vm_compute.
  - destruct (create_output_gate (Some " x ") (VStr "v") None pb)
      as (_ & _ & _ & H).
    destruct (H " x " eq_refl ltac:(discriminate) Hne) as (_ & Hm & _).
    apply (Hm {| variable := "#App:7:x!String" |});
      [by vm_compute | by vm_compute | reflexivity].
  - destruct (create_output_gate (Some "x") (VStr "v") (Some "Binary") pb)
      as (_ & _ & _ & H).
    destruct (H "x" eq_refl ltac:(discriminate) Hne) as (_ & _ & Hm).
    apply Hm; [by vm_compute | by right].
  - destruct (create_output_gate (Some "y") (VStr "v") None pb)
      as (_ & _ & _ & H).
    destruct (H "y" eq_refl ltac:(discriminate) Hne) as (_ & _ & Hm).
    apply Hm; [by vm_compute | left; by vm_compute].
  - destruct (create_output_gate None (VStr "v") None pb)
      as (_ & H & _). by apply H.
  - destruct (create_output_gate (Some "x") VNone (Some "String") pb)
      as (_ & _ & H & _). by apply H.
  - destruct (create_output_gate (Some "x") (VStr "v") (Some "String")
                (new_playbook None)) as (H & _). by apply H.
Defined.

(** ** Dictionaries *)

Lemma dict_get_app {V} (d1 d2 : Dict.t V) (k : string) :
  Dict.get (d1 ++ d2) k =
    match Dict.get d1 k with Some v => Some v | None => Dict.get d2 k end.
Proof.
  induction d1 as [|[k' v'] d1 IH]; simpl; [done |]. by case_decide.
Qed.

Lemma dict_get_set {V} (d : Dict.t V) (k : string) (v : V) :
  Dict.get (Dict.set d k v) k = Some v.
Proof.
  induction d as [|[k' v'] d IH]; simpl.
  - by rewrite decide_True.
  - case_decide; simpl; [by rewrite decide_True | by rewrite decide_False].
Qed.

Lemma dict_get_set_ne {V} (d : Dict.t V) (k k' : string) (v : V) :
  k ≠ k' → Dict.get (Dict.set d k v) k' = Dict.get d k'.
Proof.
  intros Hne. induction d as [|[k0 v0] d IH]; simpl.
  - by rewrite decide_False.
  - case_decide; simpl.
    + subst. by rewrite !decide_False.
    + by rewrite IH.
Qed.

Lemma dict_get_setdefault {V} (d : Dict.t V) (k : string) (v : V) :
  Dict.get (Dict.setdefault d k v) k = Some (default v (Dict.get d k)).
Proof.
  unfold Dict.setdefault. destruct (Dict.get d k) eqn:E; [done |].
  rewrite dict_get_app, E. simpl. by rewrite decide_True.
Qed.

Lemma dict_set_absent {V} (d : Dict.t V) (k : string) (v : V) :
  Dict.get d k = None → Dict.set d k v = d ++ [(k, v)].
Proof.
  induction d as [|[k' v'] d IH]; simpl; [done |].
  case_decide; [done |]. intros E. by rewrite IH.
Qed.

Lemma dict_keys_set {V} (d : Dict.t V) (k : string) (v : V) :
  is_Some (Dict.get d k) → Dict.keys (Dict.set d k v) = Dict.keys d.
Proof.
  induction d as [|[k' v'] d IH]; simpl; [by intros [? ?] |].
  case_decide; [by subst |]. intros E. simpl. by rewrite IH.
Qed.

Lemma dict_values_app {V} (d1 d2 : Dict.t V) :
  Dict.values (d1 ++ d2) = Dict.values d1 ++ Dict.values d2.
Proof. apply map_app. Qed.

Lemma for_each_app {S A B} (f : A → M S B) (l1 l2 : list A) (s : S) :
  for_each f (l1 ++ l2) s = bind (for_each f l1) (λ _, for_each f l2) s.
Proof.
  revert s. induction l1 as [|x l1 IH]; intros s; simpl; [done |].
  unfold bind. destruct (f x s) as [[a|e] s']; [|done].
  by rewrite IH.
Qed.

(** ** [add_output] *)

Section BufferProperties.
Context {store : Type} `{!PlaybookABC store}.
Implicit Types (pb : Playbook store) (value : Py.value).

Lemma set_output_data_same pb : set_output_data pb (output_data pb) = pb.
Proof. by destruct pb. Qed.

Lemma py_in_true (x : string) (l : list string) : x ∈ l → py_in x l = true.
Proof. intros. by apply bool_decide_eq_true_2. Qed.

Lemma py_in_false (x : string) (l : list string) : x ∉ l → py_in x l = false.
Proof. intros. by apply bool_decide_eq_false_2. Qed.

(** A null value of a type that is not an array type is not stored. *)
Lemma add_output_null_scalar pb (key t : string) (append_array : bool) :
  t ∉ _variable_array_types →
  add_output key VNone t append_array pb =
    (Ok tt,
     set_output_data pb
       (Dict.setdefault (output_data pb) (key +:+ "-" +:+ t) empty_record)).
Proof. intros Ht. unfold add_output. by rewrite py_in_false. Qed.

(** A null value of an array type is not stored when not appending. *)
Lemma add_output_null_array pb (key t : string) :
  t ∈ _variable_array_types →
  add_output key VNone t false pb =
    (Ok tt,
     set_output_data pb
       (Dict.setdefault (output_data pb) (key +:+ "-" +:+ t) empty_record)).
Proof. intros Ht. unfold add_output. by rewrite py_in_true. Qed.

Lemma extend_value_list (r : output_record) value (l : list Py.value) :
  default (VList []) (rec_value r) = VList l →
  extend_value r value =
    (Ok tt, {| rec_key := rec_key r; rec_type := rec_type r;
               rec_value := Some (VList (l ++ contributed value)) |}).
Proof. intros E. unfold extend_value. rewrite E. by destruct value. Qed.

(** An appending write to an array type extends the buffered list. *)
Lemma add_output_append pb (key t : string) value (l : list Py.value) :
  t ∈ _variable_array_types →
  buffered_list (output_data pb) (key +:+ "-" +:+ t) = Some l →
  let index := key +:+ "-" +:+ t in
  let old := Dict.get (output_data pb) index in
  add_output key value t true pb =
    (Ok tt,
     set_output_data pb
       (Dict.set (Dict.setdefault (output_data pb) index empty_record) index
          {| rec_key := Some (default key (old ≫= rec_key));
             rec_type := Some (default t (old ≫= rec_type));
             rec_value := Some (VList (l ++ contributed value)) |})).
Proof.
  intros Ht Hl index old. unfold add_output. fold index.
  rewrite (py_in_true _ _ Ht). cbn [negb andb]. rewrite !andb_false_r.
  rewrite dict_get_setdefault. fold old.
  unfold buffered_list in Hl. fold index old in Hl.
  destruct old as [r|]; cbn [default from_option id mbind option_bind].
  - rewrite (extend_value_list _ value l); [done |].
    cbn [setdefault_key_type rec_value].
    destruct (rec_value r) as [[]|]; simpl; congruence.
  - injection Hl as <-. by rewrite (extend_value_list _ value []).
Qed.

(** Any other write of a value that is not null replaces the record. *)
Lemma add_output_overwrite pb (key t : string) value (append_array : bool) :
  value ≠ VNone → t ∉ _variable_array_types ∨ append_array = false →
  let index := key +:+ "-" +:+ t in
  add_output key value t append_array pb =
    (Ok tt,
     set_output_data pb
       (Dict.set (Dict.setdefault (output_data pb) index empty_record) index
          {| rec_key := Some key; rec_type := Some t;
             rec_value := Some value |})).
Proof.
  intros Hv Hc index. unfold add_output. fold index.
  replace (is_none value) with false by by destruct value. simpl.
  destruct Hc as [Ht | ->].
  - by rewrite (py_in_false _ _ Ht).
  - by rewrite andb_false_r.
Qed.

(** Whatever the call does, and also when it raises, a record is buffered
    under the index afterwards. *)
Lemma add_output_index_present pb (key t : string) value
  (append_array : bool) :
  is_Some (Dict.get (output_data (add_output key value t append_array pb).2)
             (key +:+ "-" +:+ t)).
Proof.
  unfold add_output. set (index := key +:+ "-" +:+ t).
  set (d := Dict.setdefault (output_data pb) index empty_record).
  assert (is_Some (Dict.get d index)) as Hd
    by (unfold d; by rewrite dict_get_setdefault).
  repeat case_match; simpl; try done; by rewrite dict_get_set.
Qed.

End BufferProperties.

(** ** [write_output] *)

Section FlushProperties.
Context {store : Type} `{!PlaybookABC store}.
Implicit Types (pb : Playbook store) (value : Py.value).

(** No write touches the buffer or the requested list. *)
Lemma on_store_frame {A} (m : M store A) pb :
  output_variables (on_store m pb).2 = output_variables pb ∧
  output_data (on_store m pb).2 = output_data pb.
Proof. unfold on_store. by destruct (m (key_value_store pb)). Qed.

Lemma create_frame (key : option string) value pb :
  output_variables (create key value pb).2 = output_variables pb ∧
  output_data (create key value pb).2 = output_data pb.
Proof.
  destruct key as [key|]; [|done].
  destruct (Re.is_match (strip key)) eqn:E.
  - apply is_match_grammar in E as (j & n & t & Hv).
    rewrite (create_variable key j n t value pb Hv). apply on_store_frame.
  - rewrite create_literal; [done |].
    intros Hg%is_match_grammar. congruence.
Qed.

Lemma create_output_frame (key : option string) value
  (variable_type : option string) pb :
  output_variables (create_output key value variable_type pb).2 =
    output_variables pb ∧
  output_data (create_output key value variable_type pb).2 = output_data pb.
Proof.
  unfold create_output.
  repeat case_match; try done; apply create_frame.
Qed.

Lemma for_each_flush_frame (l : list output_record) pb :
  output_variables (for_each flush_record l pb).2 = output_variables pb ∧
  output_data (for_each flush_record l pb).2 = output_data pb.
Proof.
  revert pb. induction l as [|r l IH]; intros pb; [done |].
  simpl. unfold bind.
  assert (output_variables (flush_record r pb).2 = output_variables pb ∧
          output_data (flush_record r pb).2 = output_data pb) as [Hv Hd]
    by apply create_output_frame.
  destruct (flush_record r pb) as [[a|e] pb']; simpl in *.
  - destruct (IH pb') as [Hv' Hd']. split; congruence.
  - done.
Qed.

(** C5, flushing. [write_output] is the loop that calls
    [create_output(key, value, type)] with the three fields of each
    buffered record, one call per record in the insertion order of the
    buffer; a later record is flushed after the earlier ones; the call
    leaves the buffer (and the requested list) as it found them, also when
    a write raises; so a second [write_output] runs the same calls on the
    same records again. *)
Theorem write_output_flushes_in_order_and_keeps_buffer pb :
  write_output pb =
    for_each (λ data, create_output (rec_key data) (get_value data)
                                    (rec_type data))
             (Dict.values (output_data pb)) pb ∧
  (∀ d index data, output_data pb = d ++ [(index, data)] →
     write_output pb =
       bind (for_each flush_record (Dict.values d))
            (λ _, bind (create_output (rec_key data) (get_value data)
                                      (rec_type data))
                       (λ _, ret tt)) pb) ∧
  output_data (write_output pb).2 = output_data pb ∧
  output_variables (write_output pb).2 = output_variables pb ∧
  write_output (write_output pb).2 =
    for_each (λ data, create_output (rec_key data) (get_value data)
                                    (rec_type data))
             (Dict.values (output_data pb)) (write_output pb).2.
Proof.
  destruct (for_each_flush_frame (Dict.values (output_data pb)) pb)
    as [Hv Hd].
  split; [done |]. split; [|split; [done | split; [done |]]].
  - intros d index data E. unfold write_output. rewrite E.
    by rewrite dict_values_app, for_each_app.
  - change (output_data (write_output pb).2 = output_data pb) in Hd.
    by rewrite <- Hd.
Qed.

(** An empty record is flushed as [create_output(None, None, None)],
    which writes nothing. *)
Lemma flush_empty_record pb : flush_record empty_record pb = (Ok VNone, pb).
Proof.
  unfold flush_record, create_output. simpl. by case_bool_decide.
Qed.

(** C9, the entry made before the null checks. After every call of
    [add_output], also one that stores nothing or raises, a record is
    buffered under ["<key>-<type>"]. When the value is null, the type is
    not an array type and nothing was buffered under the index, the call
    returns after appending an empty record, with no key, type or value
    field, as the last record of the buffer; [write_output] then flushes
    that record too, as a [create_output] call on three nulls that writes
    nothing. When a record was buffered under the index, it is kept. *)
Theorem add_output_inserts_record_before_null_checks pb (key t : string)
  value (append_array : bool) :
  let index := key +:+ "-" +:+ t in
  is_Some (Dict.get (output_data (add_output key value t append_array pb).2)
             index) ∧
  (value = VNone → t ∉ _variable_array_types →
   Dict.get (output_data pb) index = None →
     let pb' := set_output_data pb (output_data pb ++ [(index, empty_record)]) in
     add_output key value t append_array pb = (Ok tt, pb') ∧
     Dict.get (output_data pb') index = Some empty_record ∧
     write_output pb' =
       bind (for_each flush_record (Dict.values (output_data pb)))
            (λ _, bind (flush_record empty_record) (λ _, ret tt)) pb' ∧
     (∀ pb'', flush_record empty_record pb'' = (Ok VNone, pb''))) ∧
  (value = VNone → t ∉ _variable_array_types →
   ∀ r, Dict.get (output_data pb) index = Some r →
     add_output key value t append_array pb = (Ok tt, pb)).
Proof.
  intros index. split; [apply add_output_index_present |]. split.
  - intros -> Ht Hfresh pb'.
    rewrite add_output_null_scalar by done. fold index.
    unfold Dict.setdefault. rewrite Hfresh. fold pb'.
    split; [done |]. split; [|split].
    + unfold pb'. simpl. rewrite dict_get_app, Hfresh. simpl.
      by rewrite decide_True.
    + unfold write_output. unfold pb' at 1. simpl.
      by rewrite dict_values_app, for_each_app.
    + apply flush_empty_record.
  - intros -> Ht r Hr. rewrite add_output_null_scalar by done. fold index.
    unfold Dict.setdefault. rewrite Hr. by rewrite set_output_data_same.
Qed.

End FlushProperties.

(** ** The buffering policy *)

Section PolicyProperties.
Context {store : Type} `{!PlaybookABC store}.
Implicit Types (pb : Playbook store) (value : Py.value).

(** [add_output] touches the buffer only. *)
Lemma add_output_frame pb (key t : string) value (append_array : bool) :
  output_variables (add_output key value t append_array pb).2 =
    output_variables pb ∧
  key_value_store (add_output key value t append_array pb).2 =
    key_value_store pb.
Proof. unfold add_output. by repeat case_match. Qed.

(** Two appending writes of values that are not lists, on an empty buffer,
    buffer one record that holds both; flushing it is one array write of
    the two-element list under the stripped requested string. *)
Lemma add_twice_then_write pb (a b : Py.value) (v : requested) :
  output_data pb = [] → is_list a = false → is_list b = false →
  output_variables_by_type pb !! "x-StringArray" = Some v →
  let pb2 := (add_output "x" b "StringArray" true
                (add_output "x" a "StringArray" true pb).2).2 in
  output_data pb2 =
    [("x-StringArray",
      {| rec_key := Some "x"; rec_type := Some "StringArray";
         rec_value := Some (VList [a; b]) |})] ∧
  write_output pb2 =
    bind (on_store (_create_array (strip (variable v)) (VList [a; b])))
         (λ _, ret tt) pb2.
Proof.
  intros Hd Ha Hb Hk pb2.
  assert ("StringArray" ∈ _variable_array_types) as Harr
    by (apply (bool_decide_eq_true_1 _); reflexivity).
  assert (output_data pb2 =
    [("x-StringArray",
      {| rec_key := Some "x"; rec_type := Some "StringArray";
         rec_value := Some (VList [a; b]) |})]) as Hd2.
  { unfold pb2.
    rewrite (add_output_append pb "x" "StringArray" a [] Harr)
      by by rewrite Hd.
    rewrite Hd. cbn [snd].
    rewrite (add_output_append _ "x" "StringArray" b (contributed a) Harr)
      by done.
    cbn. replace (contributed a) with [a] by by destruct a.
    by replace (contributed b) with [b] by by destruct b. }
  split; [done |].
  unfold write_output. rewrite Hd2. cbn [Dict.values map snd for_each].
  unfold flush_record, get_value. cbn [rec_key rec_value rec_type default
    from_option id].
  unfold bind at 1.
  rewrite (create_output_exact_match "x" "StringArray" v); [done | done | done |].
  unfold output_variables_by_type, pb2.
  destruct (add_output_frame (add_output "x" a "StringArray" true pb).2
              "x" "StringArray" b true) as [-> _].
  by destruct (add_output_frame pb "x" "StringArray" a true) as [-> _].
Qed.

(** C4, the buffering policy of one [add_output] call, from any state of
    the buffer. A null value of a type that is not an array type is not
    stored, nor is a null value of an array type when not appending: the
    record under ["<key>-<type>"] is as before the call (empty when there
    was none). An appending write to an array type, when the value
    buffered under the index is absent or a list, extends that list by the
    elements of a list value or by a value that is not a list as one
    element, and fills in key and type where absent. Every other write of
    a value that is not null replaces the record. Two appending writes of
    ["a"] and ["b"] for [x] of type [StringArray] followed by
    [write_output] make one array write of [["a", "b"]] under the
    requested variable of [x]. *)
Theorem add_output_policy pb (key t : string) value (append_array : bool) :
  let index := key +:+ "-" +:+ t in
  let kept := Dict.setdefault (output_data pb) index empty_record in
  let old := Dict.get (output_data pb) index in
  (value = VNone → t ∉ _variable_array_types →
     add_output key value t append_array pb =
       (Ok tt, set_output_data pb kept) ∧
     Dict.get kept index = Some (default empty_record old)) ∧
  (value = VNone → t ∈ _variable_array_types → append_array = false →
     add_output key value t append_array pb =
       (Ok tt, set_output_data pb kept) ∧
     Dict.get kept index = Some (default empty_record old)) ∧
  (t ∈ _variable_array_types → append_array = true →
   ∀ l, buffered_list (output_data pb) index = Some l →
     add_output key value t append_array pb =
       (Ok tt,
        set_output_data pb
          (Dict.set kept index
             {| rec_key := Some (default key (old ≫= rec_key));
                rec_type := Some (default t (old ≫= rec_type));
                rec_value := Some (VList (l ++ contributed value)) |})) ∧
     (∀ vs, value = VList vs → contributed value = vs) ∧
     (is_list value = false → contributed value = [value])) ∧
  (value ≠ VNone → t ∉ _variable_array_types ∨ append_array = false →
     add_output key value t append_array pb =
       (Ok tt,
        set_output_data pb
          (Dict.set kept index
             {| rec_key := Some key; rec_type := Some t;
                rec_value := Some value |}))) ∧
  (∀ v, output_data pb = [] →
     output_variables_by_type pb !! "x-StringArray" = Some v →
     let pb2 := (add_output "x" (VStr "b") "StringArray" true
                   (add_output "x" (VStr "a") "StringArray" true pb).2).2 in
     write_output pb2 =
       bind (on_store (_create_array (strip (variable v))
                         (VList [VStr "a"; VStr "b"])))
            (λ _, ret tt) pb2).
Proof.
  intros index kept old.
  split; [|split; [|split; [|split]]].
  - intros -> Ht. split; [by apply add_output_null_scalar |].
    apply dict_get_setdefault.
  - intros -> Ht ->. split; [by apply add_output_null_array |].
    apply dict_get_setdefault.
  - intros Ht -> l Hl. split; [by apply add_output_append |].
    split; [by intros vs -> | by destruct value].
  - intros Hv Hc. by apply add_output_overwrite.
  - intros v Hd Hk. by apply add_twice_then_write.
Qed.

End PolicyProperties.

Lemma add_output_policy_witness :
  let pb := new_playbook (Some ["#App:7:x!StringArray"]) in
  let pb1 := (add_output "x" (VStr "a") "StringArray" true pb).2 in
  let pb2 := (add_output "x" (VStr "b") "StringArray" true pb1).2 in
  add_output "x" (VStr "b") "StringArray" true pb1 =
    (Ok tt,
     set_output_data pb1
       [("x-StringArray",
         {| rec_key := Some "x"; rec_type := Some "StringArray";
            rec_value := Some (VList [VStr "a"; VStr "b"]) |})]) ∧
  add_output "x" VNone "String" true pb = 
    (Ok tt, set_output_data pb [("x-String", empty_record)]) ∧
  key_value_store (write_output pb2).2 !! "#App:7:x!StringArray" =
    Some (VList [VStr "a"; VStr "b"]).
Proof.
  intros pb pb1 pb2. split; [|split].
  - destruct (add_output_policy pb1 "x" "StringArray" (VStr "b") true)
      as (_ & _ & H & _).
    destruct (H ltac:(by apply (bool_decide_eq_true_1 _)) eq_refl
                [VStr "a"] eq_refl)
      as [Hadd _].
    exact Hadd.
  - destruct (add_output_policy pb "x" "String" VNone true) as (H & _).
    destruct (H eq_refl ltac:(by apply (bool_decide_eq_false_1 _)))
      as [Hadd _].
    exact Hadd.
  - destruct (add_output_policy pb "" "" VNone true) as (_ & _ & _ & _ & H).
    specialize (H {| variable := "#App:7:x!StringArray" |} eq_refl
                  ltac:(by vm_compute)).
    fold pb1 pb2 in H. cbv zeta in H. by rewrite H.
Defined.

(** C4 as stated fails on a sequence of two calls: after a write of the
    string ["a"] for an array type with [append_array] false, an appending
    write under the same index does not extend the record; it raises
    [AttributeError] and the record holds ["a"] as before. *)
Lemma add_output_append_after_overwrite_counterexample :
  let pb0 := new_playbook None in
  let pb1 := (add_output "x" (VStr "a") "StringArray" false pb0).2 in
  output_data pb1 =
    [("x-StringArray",
      {| rec_key := Some "x"; rec_type := Some "StringArray";
         rec_value := Some (VStr "a") |})] ∧
  add_output "x" (VStr "b") "StringArray" true pb1 =
    (Raise (AttributeError "'str' object has no attribute 'append'"), pb1).
Proof. split; reflexivity. Qed.

Lemma write_output_witness :
  let pb := new_playbook (Some ["#App:7:x!StringArray"]) in
  let pb2 := (add_output "x" (VStr "b") "StringArray" true
                (add_output "x" (VStr "a") "StringArray" true pb).2).2 in
  let data := {| rec_key := Some "x"; rec_type := Some "StringArray";
                 rec_value := Some (VList [VStr "a"; VStr "b"]) |} in
  write_output pb2 =
    bind (for_each flush_record [])
         (λ _, bind (create_output (Some "x") (VList [VStr "a"; VStr "b"])
                                   (Some "StringArray"))
                    (λ _, ret tt)) pb2 ∧
  output_data (write_output pb2).2 = [("x-StringArray", data)].
Proof.
  intros pb pb2 data.
  destruct (write_output_flushes_in_order_and_keeps_buffer pb2)
    as (_ & H & Hd & _).
  split.
  - apply (H [] "x-StringArray" data). reflexivity.
  - rewrite Hd. reflexivity.
Defined.

Lemma add_output_inserts_record_witness :
  let pb := new_playbook (Some ["#App:7:k!String"]) in
  let pb' := set_output_data pb [("k-String", empty_record)] in
  add_output "k" VNone "String" true pb = (Ok tt, pb') ∧
  Dict.get (output_data pb') "k-String" = Some empty_record ∧
  write_output pb' = (Ok tt, pb').
Proof.
  intros pb pb'.
  destruct (add_output_inserts_record_before_null_checks
              pb "k" "String" VNone true) as (_ & H & _).
  destruct (H eq_refl ltac:(by apply (bool_decide_eq_false_1 _)) eq_refl)
    as (Hadd & Hget & Hw & Hflush).
  split; [exact Hadd |]. split; [exact Hget |].
  etrans; [exact Hw |]. reflexivity.
Defined.

(** C9 as stated fails when a record is already buffered under the
    index: after [add_output("k", "v", "String")], the call
    [add_output("k", None, "String")] leaves the record with its key, type
    and value, not an empty one, and [write_output] then writes ["v"]. *)
Lemma add_output_null_on_buffered_record_counterexample :
  let pb0 := new_playbook (Some ["#App:7:k!String"]) in
  let pb1 := (add_output "k" (VStr "v") "String" true pb0).2 in
  let pb2 := (add_output "k" VNone "String" true pb1).2 in
  Dict.get (output_data pb2) "k-String" =
    Some {| rec_key := Some "k"; rec_type := Some "String";
            rec_value := Some (VStr "v") |} ∧
  key_value_store (write_output pb2).2 !! "#App:7:k!String" =
    Some (VStr "v") ∧
  ¬ (∀ (pb : Playbook memory) key t a,
       t ∉ _variable_array_types →
       Dict.get (output_data (add_output key VNone t a pb).2)
         (key +:+ "-" +:+ t) = Some empty_record).
Proof.
  intros pb0 pb1 pb2. split; [by vm_compute |]. split; [by vm_compute |].
  intros H.
  assert ("String" ∉ _variable_array_types) as Ht
    by by apply (bool_decide_eq_false_1 _).
  specialize (H pb1 "k" "String" true Ht).
  vm_compute in H. discriminate H.
Qed.

(** ** [read] *)

Section ReadProperties.
Context {store : Type} `{!PlaybookABC store}.
Implicit Types (pb : Playbook store) (value : Py.value).



(** A string that is not a variable once stripped is a literal: the two
    substitutions are run on it, as given, and then the embedded
    resolution if asked for. *)
Lemma read_value_literal (s : string) (embedded : bool) pb :
  ¬ in_grammar (strip s) →
  read_value (VStr s) embedded pb =
    (if embedded
     then on_store (_read_embedded
                      (VStr (Re.sub_escaped (Re.sub_space false s))))
     else ret (VStr (Re.sub_escaped (Re.sub_space false s)))) pb.
Proof.
  intros Hs. unfold read_value, bind, lift. cbv zeta.
  rewrite variable_type_literal by by rewrite strip_idem.
  by rewrite is_match_false.
Qed.

(** A string that is a variable once stripped is read from the store. *)
Lemma read_value_variable (s j n t : string) (embedded : bool) pb :
  is_variable_of (strip s) j n t →
  read_value (VStr s) embedded pb =
    (if py_in t _variable_single_types
     then on_store (_read (strip s) embedded)
     else if py_in t _variable_array_types
     then on_store (_read_array (strip s) embedded)
     else on_store (read_raw (strip s))) pb.
Proof.
  intros Hs. unfold read_value, bind, lift. cbv zeta.
  rewrite (variable_type_stripped (strip s) j n t) by by rewrite strip_idem.
  by rewrite (proj2 (is_match_grammar _)) by by eexists _, _, _.
Qed.

End ReadProperties.

(** ** The two substitutions of a literal *)

Lemma sub_space_one (prev : bool) (c : ascii) :
  Re.sub_space prev (String c "") = String c "".
Proof. done. Qed.

Lemma sub_space_two (prev : bool) (c c' : ascii) (rest : string) :
  Re.sub_space prev (String c (String c' rest)) =
    if decide (c = "\"%char ∧ c' = "s"%char ∧ prev = false)
    then String " " (Re.sub_space false rest)
    else String c (Re.sub_space (bool_decide (c = "\"%char))
                     (String c' rest)).
Proof. done. Qed.

(** A backslash-s that no backslash precedes becomes one space, and the
    text on either side is substituted on its own. *)
Lemma sub_space_occurrence (a b : string) (prev : bool) :
  ends_with_backslash prev a = false →
  Re.sub_space prev (a +:+ "\s" +:+ b) =
    Re.sub_space prev a +:+ " " +:+ Re.sub_space false b.
Proof.
  revert prev.
  assert ((∀ prev, ends_with_backslash prev a = false →
             Re.sub_space prev (a +:+ "\s" +:+ b) =
               Re.sub_space prev a +:+ " " +:+ Re.sub_space false b) ∧
          (∀ c prev, ends_with_backslash prev (String c a) = false →
             Re.sub_space prev (String c a +:+ "\s" +:+ b) =
               Re.sub_space prev (String c a) +:+ " " +:+
               Re.sub_space false b)) as [H _]; [|done].
  induction a as [|x a [IH1 IH2]].
  - split.
    + intros prev Hp. simpl in Hp. subst prev. simpl. by destruct b.
    + intros c prev Hp. simpl in Hp.
      change (String c "" +:+ "\s" +:+ b)
        with (String c (String "\" (String "s" b))).
      rewrite sub_space_two, sub_space_one, Hp.
      rewrite decide_False by (intros (_ & ? & _); done).
      simpl. by destruct b.
  - split; [apply IH2 |].
    intros c prev Hp.
    change (String c (String x a) +:+ "\s" +:+ b)
      with (String c (String x (a +:+ "\s" +:+ b))).
    rewrite !sub_space_two. case_decide as Hm.
    + destruct Hm as (-> & -> & ->). simpl in Hp.
      rewrite IH1 by done. done.
    + rewrite (IH2 x) by done. done.
Qed.

(** A backslash-backslash-s is left as it is by the first substitution. *)
Lemma sub_space_escaped (a b : string) (prev : bool) :
  Re.sub_space prev (a +:+ "\\s" +:+ b) =
    Re.sub_space prev a +:+ "\\s" +:+ Re.sub_space false b.
Proof.
  revert prev.
  assert ((∀ prev,
             Re.sub_space prev (a +:+ "\\s" +:+ b) =
               Re.sub_space prev a +:+ "\\s" +:+ Re.sub_space false b) ∧
          (∀ c prev,
             Re.sub_space prev (String c a +:+ "\\s" +:+ b) =
               Re.sub_space prev (String c a) +:+ "\\s" +:+
               Re.sub_space false b)) as [H _]; [|done].
  assert (∀ prev, Re.sub_space prev ("\\s" +:+ b) =
                    "\\s" +:+ Re.sub_space false b) as Hocc.
  { intros prev. simpl. destruct prev, b; done. }
  induction a as [|x a [IH1 IH2]].
  - split; [exact Hocc |].
    intros c prev.
    change (String c "" +:+ "\\s" +:+ b)
      with (String c ("\\s" +:+ b)).
    change ("\\s" +:+ b) with (String "\" (String "\" (String "s" b))) at 1.
    rewrite sub_space_two, sub_space_one.
    rewrite decide_False by (intros (_ & ? & _); done).
    change (String "\" (String "\" (String "s" b))) with ("\\s" +:+ b).
    by rewrite Hocc.
  - split; [apply IH2 |].
    intros c prev.
    change (String c (String x a) +:+ "\\s" +:+ b)
      with (String c (String x (a +:+ "\\s" +:+ b))).
    rewrite !sub_space_two. case_decide as Hm.
    + by rewrite IH1.
    + by rewrite (IH2 x).
Qed.

Lemma sub_escaped_short (c : ascii) (s : string) :
  (∀ c' c'' rest, s ≠ String c' (String c'' rest)) →
  Re.sub_escaped (String c s) = String c (Re.sub_escaped s).
Proof. intros Hs. destruct s as [|c' [|c'' rest]]; [done | done |]. by destruct (Hs c' c'' rest). Qed.

Lemma sub_escaped_three (c c' c'' : ascii) (rest : string) :
  Re.sub_escaped (String c (String c' (String c'' rest))) =
    if decide (c = "\"%char ∧ c' = "\"%char ∧ c'' = "s"%char)
    then String "\" (String "s" (Re.sub_escaped rest))
    else String c (Re.sub_escaped (String c' (String c'' rest))).
Proof. done. Qed.

(** A backslash-backslash-s becomes backslash-s, and the text on either
    side is substituted on its own. *)
Lemma sub_escaped_occurrence (a b : string) :
  Re.sub_escaped (a +:+ "\\s" +:+ b) =
    Re.sub_escaped a +:+ "\s" +:+ Re.sub_escaped b.
Proof.
  assert (Re.sub_escaped ("\\s" +:+ b) = "\s" +:+ Re.sub_escaped b) as Hocc
    by done.
  assert (∀ c, Re.sub_escaped (String c "" +:+ "\\s" +:+ b) =
               Re.sub_escaped (String c "") +:+ "\s" +:+ Re.sub_escaped b)
    as Hone.
  { intros c.
    change (String c "" +:+ "\\s" +:+ b)
      with (String c (String "\" (String "\" (String "s" b)))).
    rewrite sub_escaped_three.
    rewrite decide_False by (intros (_ & _ & ?); done).
    change (String "\" (String "\" (String "s" b))) with ("\\s" +:+ b).
    by rewrite Hocc. }
  assert ((Re.sub_escaped (a +:+ "\\s" +:+ b) =
             Re.sub_escaped a +:+ "\s" +:+ Re.sub_escaped b) ∧
          (∀ c, Re.sub_escaped (String c a +:+ "\\s" +:+ b) =
                Re.sub_escaped (String c a) +:+ "\s" +:+ Re.sub_escaped b) ∧
          (∀ c c', Re.sub_escaped (String c (String c' a) +:+ "\\s" +:+ b) =
                   Re.sub_escaped (String c (String c' a)) +:+ "\s" +:+
                   Re.sub_escaped b)) as [H _]; [|done].
  induction a as [|x a (IH1 & IH2 & IH3)].
  - split; [done |]. split; [done |].
    intros c c'.
    change (String c (String c' "") +:+ "\\s" +:+ b)
      with (String c (String c' (String "\" ("\s" +:+ b)))).
    rewrite sub_escaped_three.
    rewrite decide_False by (intros (_ & _ & ?); done).
    change (String c' (String "\" ("\s" +:+ b)))
      with (String c' "" +:+ "\\s" +:+ b).
    by rewrite Hone.
  - split; [apply IH2 |]. split; [intros c; apply IH3 |].
    intros c c'.
    change (String c (String c' (String x a)) +:+ "\\s" +:+ b)
      with (String c (String c' (String x (a +:+ "\\s" +:+ b)))).
    rewrite !sub_escaped_three. case_decide as Hm.
    + by rewrite IH1.
    + change (String c' (String x (a +:+ "\\s" +:+ b)))
        with (String c' (String x a) +:+ "\\s" +:+ b).
      by rewrite IH3.
Qed.

Lemma sub_escaped_head (c : ascii) (s : string) :
  c ≠ "\"%char → Re.sub_escaped (String c s) = String c (Re.sub_escaped s).
Proof.
  intros Hc. destruct s as [|c' [|c'' rest]]; [done | done |].
  rewrite sub_escaped_three. by rewrite decide_False by by intros (? & _).
Qed.

(** The second substitution does not reach across a space. *)
Lemma sub_escaped_space (a b : string) :
  Re.sub_escaped (a +:+ " " +:+ b) =
    Re.sub_escaped a +:+ " " +:+ Re.sub_escaped b.
Proof.
  assert (Re.sub_escaped (" " +:+ b) = " " +:+ Re.sub_escaped b) as Hocc
    by by apply sub_escaped_head.
  assert (∀ c, Re.sub_escaped (String c "" +:+ " " +:+ b) =
               Re.sub_escaped (String c "") +:+ " " +:+ Re.sub_escaped b)
    as Hone.
  { intros c.
    change (String c "" +:+ " " +:+ b) with (String c (" " +:+ b)).
    destruct b as [|y b].
    - done.
    - change (" " +:+ String y b) with (String " " (String y b)).
      rewrite sub_escaped_three.
      rewrite decide_False by (intros (_ & ? & _); done).
      by rewrite (sub_escaped_head " "). }
  assert ((Re.sub_escaped (a +:+ " " +:+ b) =
             Re.sub_escaped a +:+ " " +:+ Re.sub_escaped b) ∧
          (∀ c, Re.sub_escaped (String c a +:+ " " +:+ b) =
                Re.sub_escaped (String c a) +:+ " " +:+ Re.sub_escaped b) ∧
          (∀ c c', Re.sub_escaped (String c (String c' a) +:+ " " +:+ b) =
                   Re.sub_escaped (String c (String c' a)) +:+ " " +:+
                   Re.sub_escaped b)) as [H _]; [|done].
  induction a as [|x a (IH1 & IH2 & IH3)].
  - split; [done |]. split; [done |].
    intros c c'.
    change (String c (String c' "") +:+ " " +:+ b)
      with (String c (String c' (String " " b))).
    rewrite sub_escaped_three.
    rewrite decide_False by (intros (_ & _ & ?); done).
    change (String c' (String " " b)) with (String c' "" +:+ " " +:+ b).
    by rewrite Hone.
  - split; [apply IH2 |]. split; [intros c; apply IH3 |].
    intros c c'.
    change (String c (String c' (String x a)) +:+ " " +:+ b)
      with (String c (String c' (String x (a +:+ " " +:+ b)))).
    rewrite !sub_escaped_three. case_decide as Hm.
    + by rewrite IH1.
    + change (String c' (String x (a +:+ " " +:+ b)))
        with (String c' (String x a) +:+ " " +:+ b).
      by rewrite IH3.
Qed.

Section LiteralProperties.
Context {store : Type} `{!PlaybookABC store}.
Implicit Types (pb : Playbook store).

(** C8, the escapes of a literal. For a string key that is not a variable
    (what [read] tests on the stripped key) the type [variable_type]
    infers is the default [String], and [read] runs exactly the two
    substitutions on the key, the first and then the second, before the
    embedded resolution and the array coercion. The first turns a
    backslash-s that no backslash precedes into a space and leaves a
    backslash-backslash-s as it is; the second turns a
    backslash-backslash-s into backslash-s; so in the literal that comes
    out, an occurrence of backslash-s that no backslash precedes is a
    space and an occurrence of backslash-backslash-s is backslash-s, the
    text on either side being substituted on its own. The literal [a\\sb]
    is read as [a\sb] and the literal [a\sb] as [a b]. *)
Theorem read_literal_escapes :
  (∀ (s : string) (array embedded : bool) pb,
     ¬ in_grammar (strip s) →
     let literal := Re.sub_escaped (Re.sub_space false s) in
     is_variable (VStr s) = false ∧
     variable_type (VStr s) = Ok "String" ∧
     read (VStr s) array embedded pb =
       bind (if embedded then on_store (_read_embedded (VStr literal))
             else ret (VStr literal))
            (λ v, ret (as_array array v)) pb) ∧
  (∀ (a b : string) (prev : bool),
     ends_with_backslash prev a = false →
     Re.sub_space prev (a +:+ "\s" +:+ b) =
       Re.sub_space prev a +:+ " " +:+ Re.sub_space false b) ∧
  (∀ (a b : string) (prev : bool),
     Re.sub_space prev (a +:+ "\\s" +:+ b) =
       Re.sub_space prev a +:+ "\\s" +:+ Re.sub_space false b) ∧
  (∀ a b : string,
     Re.sub_escaped (a +:+ "\\s" +:+ b) =
       Re.sub_escaped a +:+ "\s" +:+ Re.sub_escaped b) ∧
  (∀ a b : string,
     ends_with_backslash false a = false →
     Re.sub_escaped (Re.sub_space false (a +:+ "\s" +:+ b)) =
       Re.sub_escaped (Re.sub_space false a) +:+ " " +:+
       Re.sub_escaped (Re.sub_space false b)) ∧
  (∀ a b : string,
     Re.sub_escaped (Re.sub_space false (a +:+ "\\s" +:+ b)) =
       Re.sub_escaped (Re.sub_space false a) +:+ "\s" +:+
       Re.sub_escaped (Re.sub_space false b)) ∧
  (∀ pb, read (VStr "a\\sb") false false pb = (Ok (VStr "a\sb"), pb) ∧
         read (VStr "a\sb") false false pb = (Ok (VStr "a b"), pb) ∧
         read (VStr "a\\sb") false true pb =
           bind (on_store (_read_embedded (VStr "a\sb")))
                (λ v, ret (as_array false v)) pb ∧
         read (VStr "a\sb") false true pb =
           bind (on_store (_read_embedded (VStr "a b")))
                (λ v, ret (as_array false v)) pb).
Proof.
  assert (∀ (s : string) (array embedded : bool) pb,
    ¬ in_grammar (strip s) →
    read (VStr s) array embedded pb =
      bind (if embedded
            then on_store (_read_embedded
                             (VStr (Re.sub_escaped (Re.sub_space false s))))
            else ret (VStr (Re.sub_escaped (Re.sub_space false s))))
           (λ v, ret (as_array array v)) pb) as Hread.
  { intros s array embedded pb Hs. unfold read, bind.
    by rewrite (read_value_literal s embedded pb Hs). }
  assert (∀ s, Re.is_match (strip s) = false → ¬ in_grammar (strip s))
    as Hnot.
  { intros s E Hg%is_match_grammar. congruence. }
  split; [|split; [|split; [|split; [|split; [|split]]]]].
  - intros s array embedded pb Hs literal. split; [|split].
    + apply not_true_is_false. rewrite is_variable_grammar.
      by apply not_grammar_stripped.
    + by apply variable_type_literal.
    + by apply Hread.
  - intros a b prev. apply sub_space_occurrence.
  - intros a b prev. apply sub_space_escaped.
  - apply sub_escaped_occurrence.
  - intros a b Ha. by rewrite sub_space_occurrence, sub_escaped_space.
  - intros a b. by rewrite sub_space_escaped, sub_escaped_occurrence.
  - intros pb.
    rewrite !Hread by (apply Hnot; reflexivity). done.
Qed.

End LiteralProperties.

Lemma read_literal_escapes_witness :
  let pb := new_playbook None in
  read (VStr "a\\sb") false true pb = (Ok (VStr "a\sb"), pb) ∧
  read (VStr " a\sb\s") true true pb = (Ok (VList [VStr " a b "]), pb) ∧
  Re.sub_space false ("x" +:+ "\s" +:+ "y\sz") = "x y z".
Proof.
  intros pb.
  destruct (read_literal_escapes (store := memory))
    as (Hread & Hocc & _).
  assert (∀ s, Re.is_match (strip s) = false → ¬ in_grammar (strip s))
    as Hnot.
  { intros s E Hg%is_match_grammar. congruence. }
  split; [|split].
  - destruct (Hread "a\\sb" false true pb) as (_ & _ & ->);
      [by apply Hnot | reflexivity].
  - destruct (Hread " a\sb\s" true true pb) as (_ & _ & ->);
      [by apply Hnot | reflexivity].
  - rewrite (Hocc "x" "y\sz" false); reflexivity.
Defined.


(** * Further properties of the class *)

(** ** White space around a key *)

Lemma lstrip_all_space (w : string) :
  all_chars is_space w = true → lstrip w = "".
Proof.
  induction w as [|c w IH]; simpl; [done |].
  intros [Hc Hw]%andb_true_iff. rewrite Hc. auto.
Qed.

Lemma rstrip_all_space (w : string) :
  all_chars is_space w = true → rstrip w = "".
Proof.
  induction w as [|c w IH]; simpl; [done |].
  intros [Hc Hw]%andb_true_iff. by rewrite (IH Hw), Hc.
Qed.

Lemma rstrip_app_spaces (x w : string) :
  all_chars is_space w = true → rstrip (x +:+ w) = rstrip x.
Proof.
  intros Hw. induction x as [|c x IH]; simpl.
  - by apply rstrip_all_space.
  - by rewrite IH.
Qed.

Lemma lstrip_app_spaces (x w : string) :
  all_chars is_space w = true →
  lstrip (x +:+ w) = match lstrip x with "" => "" | y => y +:+ w end.
Proof.
  intros Hw. induction x as [|c x IH]; simpl.
  - by apply lstrip_all_space.
  - by destruct (is_space c).
Qed.

(** [strip] removes the white space on both sides, and nothing else. *)
Lemma strip_pad (w1 w2 s : string) :
  all_chars is_space w1 = true → all_chars is_space w2 = true →
  strip (w1 +:+ s +:+ w2) = strip s.
Proof.
  intros H1 H2. unfold strip. rewrite lstrip_spaces by done.
  rewrite lstrip_app_spaces by done.
  destruct (lstrip s) as [|c r] eqn:E; [done |].
  by rewrite rstrip_app_spaces.
Qed.

Lemma parse_variable_strip (s s' : string) :
  strip s = strip s' → parse_variable (Some s) = parse_variable (Some s').
Proof. intros E. unfold parse_variable. by rewrite E. Qed.

Lemma variable_type_strip (s s' : string) :
  strip s = strip s' → variable_type (VStr s) = variable_type (VStr s').
Proof. intros E. unfold variable_type. by rewrite E. Qed.

(** X1, type and parse agree. On every string [parse_variable] and
    [variable_type] return without raising: the [re.search] they run after
    a successful [re.match] always finds the match. [variable_type] is
    the ['type'] field of what [parse_variable] returns, and ["String"]
    when [parse_variable] returns null; [parse_variable] returns non-null
    exactly when the stripped string is a variable for [is_variable]. *)
Theorem variable_type_is_parsed_type (s : string) :
  ∃ r : option parsed_variable,
    parse_variable (Some s) = Ok r ∧
    variable_type (VStr s) =
      Ok (match r with Some p => type p | None => "String" end) ∧
    (is_Some r ↔ is_variable (VStr (strip s)) = true).
Proof.
  destruct (Re.is_match (strip s)) eqn:E.
  - pose proof E as (j & n & t & H)%is_match_grammar.
    eexists. split; [by apply parse_variable_stripped |].
    split; [by apply (variable_type_stripped s j n t) |].
    simpl. by rewrite E.
  - assert (¬ in_grammar (strip s)) as Hs
      by (intros Hg%is_match_grammar; congruence).
    exists None. split; [by apply parse_variable_literal |].
    split; [by apply variable_type_literal |].
    simpl. rewrite E. split; [by intros [? ?] | done].
Qed.

(** X2, the parse reads the whole stripped string. When [parse_variable]
    returns a dictionary, its ['root'] is the stripped input, its three
    fields are a job id of digits, a name and a type token, none empty,
    and [#App:<job_id>:<name>!<type>] put together from them is the
    stripped input again. *)
Theorem parse_variable_round_trip (s : string) (p : parsed_variable) :
  parse_variable (Some s) = Ok (Some p) →
  root p = strip s ∧
  variable_string (job_id p) (name p) (type p) = strip s ∧
  wf_fields (job_id p) (name p) (type p) = true.
Proof.
  intros Hp. destruct (Re.is_match (strip s)) eqn:E.
  - apply is_match_grammar in E as (j & n & t & H).
    rewrite (parse_variable_stripped s j n t H) in Hp.
    injection Hp as <-. simpl. by destruct H as [Hwf ->].
  - rewrite parse_variable_literal in Hp; [done |].
    intros Hg%is_match_grammar. congruence.
Qed.

Lemma parse_variable_round_trip_witness :
  let p := {| root := "#App:12:a.b-c!KeyValue"; job_id := "12";
              name := "a.b-c"; type := "KeyValue" |} in
  root p = strip "  #App:12:a.b-c!KeyValue " ∧
  variable_string (job_id p) (name p) (type p) =
    strip "  #App:12:a.b-c!KeyValue " ∧
  wf_fields (job_id p) (name p) (type p) = true.
Proof.
  intros p. apply (parse_variable_round_trip "  #App:12:a.b-c!KeyValue " p).
  reflexivity.
Defined.

(** ** [create] and the strict creators *)

Section CreateExtras.
Context {store : Type} `{!PlaybookABC store}.
Implicit Types (pb : Playbook store) (value : Py.value).

Lemma create_strip (key key' : string) value pb :
  strip key = strip key' → create (Some key) value pb = create (Some key') value pb.
Proof. intros E. unfold create. cbv zeta. by rewrite E. Qed.

(** X3, what [create] does. For every key that is not null, [create]
    either makes one call of the write path of the type the key declares,
    on the stripped key, or, when the stripped key is not a variable,
    raises [TypeError] and leaves the instance and its store as they
    were. In both cases the output buffer and the requested list are
    untouched, and white space around the key changes nothing. *)
Theorem create_outcome (key : string) value pb :
  ((∃ j n t, is_variable_of (strip key) j n t ∧
      create (Some key) value pb =
        on_store (write_path t (strip key) value) pb) ∨
   (¬ in_grammar (strip key) ∧
      create (Some key) value pb =
        (Raise (TypeError "'NoneType' object is not subscriptable"), pb))) ∧
  output_data (create (Some key) value pb).2 = output_data pb ∧
  output_variables (create (Some key) value pb).2 = output_variables pb ∧
  (∀ w1 w2, all_chars is_space w1 = true → all_chars is_space w2 = true →
     create (Some (w1 +:+ key +:+ w2)) value pb = create (Some key) value pb).
Proof.
  split; [|split; [|split]].
  - destruct (Re.is_match (strip key)) eqn:E.
    + apply is_match_grammar in E as (j & n & t & Hv). left.
      exists j, n, t. split; [done |]. by apply (create_variable key j n t).
    + assert (¬ in_grammar (strip key)) as Hs
        by (intros Hg%is_match_grammar; congruence).
      right. split; [done |]. by apply create_literal.
  - apply create_frame.
  - apply create_frame.
  - intros w1 w2 H1 H2. apply create_strip. by apply strip_pad.
Qed.

Lemma variable_type_grammar (key j n t : string) :
  is_variable_of key j n t → variable_type (VStr key) = Ok t.
Proof.
  intros H. apply (variable_type_stripped key j n t).
  rewrite strip_grammar; [done | by eexists _, _, _].
Qed.

Lemma create_grammar (key j n t : string) value pb :
  is_variable_of key j n t →
  create (Some key) value pb = on_store (write_path t key value) pb.
Proof.
  intros H. assert (strip key = key) as E
    by (apply strip_grammar; by eexists _, _, _).
  rewrite (create_variable key j n t) by by rewrite E. by rewrite E.
Qed.

(** X4, the strict creators against [create]. On a key of the grammar
    (no white space around it) each creator, given a key of the type it
    expects, does what [create] does on that key. The exception is
    [create_tc_entity_array] on a key of type [TCEnhancedEntity]: it
    accepts the key and makes the array write, where [create] makes the
    scalar write. *)
Theorem strict_creators_agree_with_create (key j n t : string) value pb :
  is_variable_of key j n t →
  (t = "Binary" → create_binary key value pb = create (Some key) value pb) ∧
  (t = "BinaryArray" →
     create_binary_array key value pb = create (Some key) value pb) ∧
  (t = "KeyValue" →
     create_key_value key value pb = create (Some key) value pb) ∧
  (t = "KeyValueArray" →
     create_key_value_array key value pb = create (Some key) value pb) ∧
  (t = "String" → create_string key value pb = create (Some key) value pb) ∧
  (t = "StringArray" →
     create_string_array key value pb = create (Some key) value pb) ∧
  (t = "TCEntity" →
     create_tc_entity key value pb = create (Some key) value pb) ∧
  (t = "TCEntityArray" ∨ t = "TCEnhancedEntityArray" →
     create_tc_entity_array key value pb = create (Some key) value pb) ∧
  (t = "TCEnhancedEntity" →
     create_tc_entity_array key value pb =
       on_store (_create_array key value) pb ∧
     create (Some key) value pb = on_store (_create key value) pb).
Proof.
  intros H. pose proof (variable_type_grammar key j n t H) as Ht.
  rewrite (create_grammar key j n t value pb H).
  unfold create_binary, create_binary_array, create_key_value,
    create_key_value_array, create_string, create_string_array,
    create_tc_entity.
  repeat (split; [intros ->; by rewrite create_strict_match |]).
  split.
  - intros [-> | ->]; unfold create_tc_entity_array, bind, lift;
      by rewrite Ht.
  - intros ->. split; [|done].
    unfold create_tc_entity_array, bind, lift. by rewrite Ht.
Qed.

(** X5, the creators on a key that is no variable. [variable_type] gives
    such a key the default type, so [create_string] accepts it and makes
    the scalar write under the key as given, white space included; the
    other seven creators reject it with their [RuntimeError]; and
    [create] raises [TypeError]. *)
Theorem creators_on_literal_key (key : string) value pb :
  ¬ in_grammar (strip key) →
  create_string key value pb = on_store (_create key value) pb ∧
  create_binary key value pb = (Raise (not_a_key key "Binary"), pb) ∧
  create_binary_array key value pb =
    (Raise (not_a_key key "BinaryArray"), pb) ∧
  create_key_value key value pb = (Raise (not_a_key key "KeyValue"), pb) ∧
  create_key_value_array key value pb =
    (Raise (not_a_key key "KeyValueArray"), pb) ∧
  create_string_array key value pb =
    (Raise (not_a_key key "StringArray"), pb) ∧
  create_tc_entity key value pb = (Raise (not_a_key key "TCEntity"), pb) ∧
  create_tc_entity_array key value pb =
    (Raise (not_a_key key tc_entity_array_repr), pb) ∧
  create (Some key) value pb =
    (Raise (TypeError "'NoneType' object is not subscriptable"), pb).
Proof.
  intros Hs. pose proof (variable_type_literal key Hs) as Ht.
  unfold create_binary, create_binary_array, create_key_value,
    create_key_value_array, create_string, create_string_array,
    create_tc_entity.
  split; [by apply create_strict_match |].
  repeat (split; [by apply (create_strict_mismatch _ _ _ "String") |]).
  split; [|by apply create_literal].
  unfold create_tc_entity_array, bind, lift. by rewrite Ht.
Qed.

End CreateExtras.

Lemma create_outcome_witness :
  create (Some (" " +:+ "#App:1:k!Binary" +:+ "  ")) (VBytes "b")
         (new_playbook None) =
    create (Some "#App:1:k!Binary") (VBytes "b") (new_playbook None).
Proof.
  apply (create_outcome "#App:1:k!Binary" (VBytes "b") (new_playbook None));
    reflexivity.
Defined.

Lemma strict_creators_agree_with_create_witness :
  let pb := new_playbook None in
  create_string_array "#App:1:k!StringArray" (VList [VStr "a"]) pb =
    create (Some "#App:1:k!StringArray") (VList [VStr "a"]) pb ∧
  create_tc_entity_array "#App:1:k!TCEnhancedEntity" (VList []) pb =
    on_store (_create_array "#App:1:k!TCEnhancedEntity" (VList [])) pb.
Proof.
  intros pb. split.
  - apply (strict_creators_agree_with_create
             "#App:1:k!StringArray" "1" "k" "StringArray");
      [by split | reflexivity].
  - apply (strict_creators_agree_with_create
             "#App:1:k!TCEnhancedEntity" "1" "k" "TCEnhancedEntity"
             (VList []) pb); [by split | reflexivity].
Defined.

Lemma creators_on_literal_key_witness :
  let pb := new_playbook None in
  key_value_store (create_string " plain " (VStr "v") pb).2 !! " plain " =
    Some (VStr "v") ∧
  create_binary " plain " (VStr "v") pb =
    (Raise (RuntimeError "The key provided ( plain ) is not a Binary key."),
     pb).
Proof.
  intros pb.
  assert (¬ in_grammar (strip " plain ")) as Hs.
  { intros Hg%is_match_grammar. vm_compute in Hg. discriminate Hg. }
  destruct (creators_on_literal_key " plain " (VStr "v") pb Hs)
    as (Hstr & Hbin & _).
  split; [by rewrite Hstr | exact Hbin].
Defined.

(** ** The index and [create_output] *)

Lemma is_variable_of_type_word (s j n t : string) :
  is_variable_of s j n t → all_chars is_word t = true.
Proof.
  intros [Hwf _]. by apply wf_fields_inv in Hwf as (_ & _ & _ & _ & _ & ?).
Qed.

Lemma index_variable_linked (ix : index) (ov : string) :
  index_linked ix → index_linked (index_variable ix ov).
Proof.
  intros [H1 H2]. unfold index_variable.
  destruct (Re.is_match (strip ov)) eqn:E.
  2:{ rewrite parse_variable_literal; [done |].
      intros Hg%is_match_grammar. congruence. }
  apply is_match_grammar in E as (j & n & t & Hv).
  rewrite (parse_variable_stripped _ _ _ _ Hv). cbn [name type].
  pose proof (is_variable_of_type_word _ _ _ _ Hv) as Ht.
  split; cbn [fst snd].
  - intros kt v. destruct (decide (n +:+ "-" +:+ t = kt)) as [<-|Hne].
    + rewrite lookup_insert_eq. intros [= <-]. cbn [variable].
      exists j, n, t. by rewrite lookup_insert_eq.
    + rewrite lookup_insert_ne by done. intros Hk.
      destruct (H1 kt v Hk) as (j' & n' & t' & Hv' & -> & Hin).
      exists j', n', t'. split; [done |]. split; [done |].
      destruct (decide (n = n')) as [<-|Hn];
        [by rewrite lookup_insert_eq | by rewrite lookup_insert_ne].
  - intros n0 v. destruct (decide (n = n0)) as [<-|Hne].
    + rewrite lookup_insert_eq. intros [= <-]. cbn [variable].
      exists j, t. by rewrite lookup_insert_eq.
    + rewrite lookup_insert_ne by done. intros Hk.
      destruct (H2 n0 v Hk) as (j' & t' & Hv' & Hin).
      exists j', t'. split; [done |].
      rewrite lookup_insert_ne; [done |].
      intros Heq. apply composite_inj in Heq as [? _]; [done | done |].
      by apply (is_variable_of_type_word _ _ _ _ Hv').
Qed.

Lemma parse_output_variables_linked (outs : option (list string)) :
  index_linked (_parse_output_variables outs).
Proof.
  unfold _parse_output_variables.
  induction (default [] outs) as [|ov l IH] using rev_ind.
  - split; intros ? ?; simpl; by rewrite lookup_empty.
  - rewrite foldl_app. simpl. by apply index_variable_linked.
Qed.

Section GateExtras.
Context {store : Type} `{!PlaybookABC store}.
Implicit Types (pb : Playbook store) (value : Py.value).

Lemma create_output_cases (key : option string) value
  (variable_type : option string) pb :
  create_output key value variable_type pb = (Ok VNone, pb) ∨
  ∃ k rv j n t,
    key = Some k ∧ value ≠ VNone ∧
    rv ∈ default [] (output_variables pb) ∧
    is_variable_of (strip rv) j n t ∧
    (strip k +:+ "-" +:+ fmt_optional variable_type = n +:+ "-" +:+ t ∨
     variable_type = None ∧ strip k = n) ∧
    create_output key value variable_type pb =
      on_store (write_path t (strip rv) value) pb.
Proof.
  unfold create_output. case_bool_decide; [by left |].
  destruct key as [k|]; [|by left].
  destruct (is_none value) eqn:Hv; [by left |].
  assert (value ≠ VNone) as Hv' by (by intros ->).
  destruct (output_variables_by_type pb !! _) as [v|] eqn:Hbt.
  - destruct (create_requested_by_type pb _ v value Hbt)
      as (Hin & j & n & t & Hwf & E & Hc).
    right. exists k, (variable v), j, n, t.
    split; [done |]. split; [done |]. split; [done |]. split; [done |].
    split; [by left | done].
  - destruct (output_variables_by_name pb !! strip k) as [v|] eqn:Hbn;
      [|by left].
    destruct variable_type; [by left |].
    destruct (create_requested_by_name pb _ v value Hbn)
      as (Hin & j & t & Hwf & Hc).
    right. exists k, (variable v), j, (strip k), t.
    split; [done |]. split; [done |]. split; [done |]. split; [done |].
    split; [by right | done].
Qed.

(** X6, what [create_output] does. On an instance whose requested list
    holds variable strings, every call of [create_output] either returns
    null and changes nothing, or makes one call of a write path on a
    stripped requested variable string: a string of the requested list,
    written by the path of the type it declares, whose name-type
    composite is the one of the stripped key and the type of the caller
    (or, without a type, whose name is the stripped key). When the type
    of the caller is absent or a token of word characters, the name of
    the variable written is the stripped key; a type with a dash in it
    can make the composite of another name. The call never raises the
    [TypeError] of [create], never changes the output buffer or the
    requested list, and ignores white space around the key. *)
Theorem create_output_outcome (key : option string) value
  (variable_type : option string) pb :
  Forall (λ ov, in_grammar (strip ov)) (default [] (output_variables pb)) →
  (create_output key value variable_type pb = (Ok VNone, pb) ∨
   ∃ k rv j n t,
     key = Some k ∧ value ≠ VNone ∧
     rv ∈ default [] (output_variables pb) ∧
     is_variable_of (strip rv) j n t ∧
     (strip k +:+ "-" +:+ fmt_optional variable_type = n +:+ "-" +:+ t ∨
      variable_type = None ∧ strip k = n) ∧
     (all_chars is_word (fmt_optional variable_type) = true → n = strip k) ∧
     create_output key value variable_type pb =
       on_store (write_path t (strip rv) value) pb) ∧
  output_data (create_output key value variable_type pb).2 = output_data pb ∧
  output_variables (create_output key value variable_type pb).2 =
    output_variables pb ∧
  (∀ k w1 w2, key = Some k →
     all_chars is_space w1 = true → all_chars is_space w2 = true →
     create_output (Some (w1 +:+ k +:+ w2)) value variable_type pb =
       create_output key value variable_type pb).
Proof.
  intros _.
  split; [|split; [apply create_output_frame |
           split; [apply create_output_frame |]]].
  - destruct (create_output_cases key value variable_type pb)
      as [E | (k & rv & j & n & t & Hk & Hv & Hin & Hwf & Hm & E)];
      [by left | right].
    exists k, rv, j, n, t. repeat (split; [done |]). split; [|done].
    intros Hword. destruct Hm as [Hm | [_ Hm]]; [|done].
    apply composite_inj in Hm as [Hm _]; [done | done |].
    by apply (is_variable_of_type_word _ _ _ _ Hwf).
  - intros k w1 w2 -> H1 H2. unfold create_output.
    by rewrite (strip_pad w1 w2 k H1 H2).
Qed.

(** X7, [check_output_variable] decides the untyped [create_output]. For
    a value that is not null, [create_output] called without a type
    writes exactly when [check_output_variable] holds of the stripped
    key: it does nothing when the check fails, and when the check holds
    it makes one write on a stripped requested variable whose name is the
    stripped key. *)
Theorem untyped_create_output_follows_check (k : string) value pb :
  value ≠ VNone →
  (check_output_variable pb (strip k) = false →
     create_output (Some k) value None pb = (Ok VNone, pb)) ∧
  (check_output_variable pb (strip k) = true →
     ∃ rv j t,
       rv ∈ default [] (output_variables pb) ∧
       is_variable_of (strip rv) j (strip k) t ∧
       create_output (Some k) value None pb =
         on_store (write_path t (strip rv) value) pb).
Proof.
  intros Hv.
  destruct (parse_output_variables_linked (output_variables pb))
    as [Hl1 Hl2].
  assert (all_chars is_word "None" = true) as Hnone by reflexivity.
  assert (∀ v, output_variables_by_type pb !! (strip k +:+ "-" +:+ "None")
               = Some v →
          ∃ j t, is_variable_of (strip (variable v)) j (strip k) t ∧
                 is_Some (output_variables_by_name pb !! strip k)) as Hexact.
  { intros v Hbt. destruct (Hl1 _ v Hbt) as (j & n & t & Hwf & E & Hin).
    apply composite_inj in E as [-> <-]; [by eexists _, _ | done |].
    by apply (is_variable_of_type_word _ _ _ _ Hwf). }
  unfold check_output_variable, create_output.
  replace (is_none value) with false by by destruct value.
  change (fmt_optional None) with "None".
  split.
  - intros Hc%bool_decide_eq_false. case_bool_decide; [done |].
    destruct (output_variables_by_type pb !! _) as [v|] eqn:Hbt.
    + by destruct (Hexact v eq_refl) as (? & ? & _ & ?).
    + destruct (output_variables_by_name pb !! strip k) eqn:Hbn; [|done].
      destruct Hc. by eexists.
  - intros [v Hbn]%bool_decide_eq_true.
    rewrite bool_decide_eq_false_2.
    2:{ intros E. destruct (Hl2 _ v Hbn) as (j & t & _ & Hbt).
        unfold output_variables_by_type in E.
        by rewrite E, lookup_empty in Hbt. }
    destruct (output_variables_by_type pb !! _) as [v'|] eqn:Hbt.
    + destruct (Hexact v' eq_refl) as (j & t & Hwf & _).
      destruct (create_requested_by_type pb _ v' value Hbt) as (Hin & _).
      exists (variable v'), j, t. split; [done |]. split; [done |].
      by apply (create_variable _ j (strip k) t).
    + rewrite Hbn.
      destruct (create_requested_by_name pb _ v value Hbn)
        as (Hin & j & t & Hwf & Hc).
      by exists (variable v), j, t.
Qed.

End GateExtras.

Lemma create_output_outcome_witness :
  let pb := new_playbook (Some ["#App:7:x!String"; "#App:7:x-y!String"]) in
  create_output (Some ("  " +:+ "x" +:+ " ")) (VStr "v") (Some "String") pb =
    create_output (Some "x") (VStr "v") (Some "String") pb ∧
  key_value_store (create_output (Some "x") (VStr "v") (Some "String") pb).2
    !! "#App:7:x!String" = Some (VStr "v") ∧
  key_value_store (create_output (Some "x") (VStr "v") (Some "y-String") pb).2
    !! "#App:7:x-y!String" = Some (VStr "v").
Proof.
  intros pb.
  assert (Forall (λ ov, in_grammar (strip ov))
            (default [] (output_variables pb))) as Hreq.
  { repeat apply Forall_cons_2; [| |apply Forall_nil_2];
      apply is_match_grammar; by vm_compute. }
  destruct (create_output_outcome (Some "x") (VStr "v") (Some "String") pb
              Hreq) as (_ & _ & _ & H).
  split; [by apply (H "x" "  " " ") |]. split; by vm_compute.
Defined.

Lemma untyped_create_output_witness :
  let pb := new_playbook (Some ["#App:7:x!String"]) in
  create_output (Some "y") (VStr "v") None pb = (Ok VNone, pb) ∧
  ∃ rv j t,
    rv ∈ ["#App:7:x!String"] ∧ is_variable_of (strip rv) j "x" t ∧
    create_output (Some " x") (VStr "v") None pb =
      on_store (write_path t (strip rv) (VStr "v")) pb.
Proof.
  intros pb. split.
  - apply (untyped_create_output_follows_check "y" (VStr "v") pb);
      [discriminate | by vm_compute].
  - apply (untyped_create_output_follows_check " x" (VStr "v") pb);
      [discriminate | by vm_compute].
Defined.

(** ** The output buffer *)

Lemma dict_set_set {V} (d : Dict.t V) (k : string) (v v' : V) :
  Dict.set (Dict.set d k v) k v' = Dict.set d k v'.
Proof.
  induction d as [|[k0 v0] d IH]; simpl.
  - by rewrite decide_True.
  - case_decide; simpl; [by rewrite decide_True |].
    rewrite decide_False by done. by rewrite IH.
Qed.

Lemma dict_setdefault_present {V} (d : Dict.t V) (k : string) (v : V) :
  is_Some (Dict.get d k) → Dict.setdefault d k v = d.
Proof. intros [x Hx]. unfold Dict.setdefault. by rewrite Hx. Qed.

Lemma dict_get_setdefault_ne {V} (d : Dict.t V) (k k' : string) (v : V) :
  k ≠ k' → Dict.get (Dict.setdefault d k v) k' = Dict.get d k'.
Proof.
  intros Hne. unfold Dict.setdefault. destruct (Dict.get d k); [done |].
  rewrite dict_get_app. destruct (Dict.get d k'); [done |].
  simpl. by rewrite decide_False.
Qed.

Lemma dict_keys_setdefault {V} (d : Dict.t V) (k : string) (v : V) :
  Dict.keys (Dict.setdefault d k v) =
    if Dict.get d k is Some _ then Dict.keys d else Dict.keys d ++ [k].
Proof.
  unfold Dict.setdefault. destruct (Dict.get d k); [done |].
  unfold Dict.keys. by rewrite map_app.
Qed.

Lemma dict_set_app_last {V} (d : Dict.t V) (k : string) (v v' : V) :
  Dict.get d k = None → Dict.set (d ++ [(k, v)]) k v' = d ++ [(k, v')].
Proof.
  induction d as [|[k0 v0] d IH]; simpl.
  - by rewrite decide_True.
  - case_decide; [done |]. intros E. by rewrite IH.
Qed.

Section BufferExtras.
Context {store : Type} `{!PlaybookABC store}.
Implicit Types (pb : Playbook store) (value : Py.value).

(** The buffer a call leaves: the one holding a record under the index,
    with that record as it was or replaced. *)
Lemma add_output_buffer pb (key t : string) value (append_array : bool) :
  let kept := Dict.setdefault (output_data pb) (key +:+ "-" +:+ t)
                empty_record in
  output_data (add_output key value t append_array pb).2 = kept ∨
  ∃ r, output_data (add_output key value t append_array pb).2 =
         Dict.set kept (key +:+ "-" +:+ t) r.
Proof.
  intros kept. unfold add_output. fold kept.
  repeat case_match; simpl; eauto.
Qed.

Lemma buffered_list_set (d : Dict.t output_record) (index : string)
  (k t : option string) (l : list Py.value) :
  buffered_list
    (Dict.set d index {| rec_key := k; rec_type := t;
                         rec_value := Some (VList l) |}) index = Some l.
Proof. unfold buffered_list. by rewrite dict_get_set. Qed.

(** X9, appending accumulates. For an array type, a run of appending
    [add_output] calls under one key, started where the value buffered
    under the index is absent or a list, raises nowhere and leaves the
    list extended by what each value contributes, in the order of the
    calls: the elements of a list value, and any other value, null
    included, as one element. *)
Theorem appending_accumulates (key t : string) (values : list Py.value)
  (l : list Py.value) pb :
  t ∈ _variable_array_types →
  buffered_list (output_data pb) (key +:+ "-" +:+ t) = Some l →
  let run := for_each (λ v, add_output key v t true) values pb in
  run.1 = Ok tt ∧
  buffered_list (output_data run.2) (key +:+ "-" +:+ t) =
    Some (l ++ concat (map contributed values)) ∧
  contributed VNone = [VNone].
Proof.
  intros Ht. revert l pb.
  induction values as [|v values IH]; intros l pb Hl run.
  - unfold run. simpl. by rewrite app_nil_r.
  - unfold run. cbn [for_each]. unfold bind.
    rewrite (add_output_append pb key t v l Ht Hl).
    set (pb1 := set_output_data pb _).
    assert (buffered_list (output_data pb1) (key +:+ "-" +:+ t) =
              Some (l ++ contributed v)) as Hl1
      by apply buffered_list_set.
    destruct (IH _ pb1 Hl1) as (Hok & Hbuf & _).
    split; [done |]. split; [|done].
    rewrite Hbuf. cbn [map concat]. by rewrite app_assoc.
Qed.

End BufferExtras.

Lemma appending_accumulates_witness :
  let run := for_each (λ v, add_output "x" v "StringArray" true)
               [VStr "a"; VList [VStr "b"; VStr "c"]; VNone]
               (new_playbook None) in
  run.1 = Ok tt ∧
  buffered_list (output_data run.2) "x-StringArray" =
    Some [VStr "a"; VStr "b"; VStr "c"; VNone].
Proof.
  intros run.
  destruct (appending_accumulates "x" "StringArray"
              [VStr "a"; VList [VStr "b"; VStr "c"]; VNone] []
              (new_playbook None)) as (Hok & Hbuf & _);
    [by apply (bool_decide_eq_true_1 _) | reflexivity |].
  split; [exact Hok | exact Hbuf].
Defined.

(** ** From the buffer to the store *)

Section FlushExtras.
Context {store : Type} `{!PlaybookABC store}.
Implicit Types (pb : Playbook store) (value : Py.value).

Lemma write_output_last pb (d : Dict.t output_record) (index : string)
  (r : output_record) :
  output_data pb = d ++ [(index, r)] →
  write_output pb =
    bind (for_each flush_record (Dict.values d))
         (λ _, bind (create_output (rec_key r) (get_value r) (rec_type r))
                    (λ _, ret tt)) pb.
Proof.
  intros E. unfold write_output. rewrite E.
  by rewrite dict_values_app, for_each_app.
Qed.

(** X11, a buffered value is flushed as the [create_output] of it. After
    an [add_output] under an index that was not buffered before,
    [write_output] flushes the earlier records and then makes the call
    [create_output(key, value, type)] with the key and type of the
    [add_output] call: with the value itself when the call overwrote, and
    with the list of what the value contributes when the call appended
    (a value that is not a list goes to the store as a one-element list). *)
Theorem buffered_record_is_flushed_as_create_output pb (key t : string)
  value (append_array : bool) :
  Dict.get (output_data pb) (key +:+ "-" +:+ t) = None →
  let pb1 := (add_output key value t append_array pb).2 in
  (value ≠ VNone → t ∉ _variable_array_types ∨ append_array = false →
     write_output pb1 =
       bind (for_each flush_record (Dict.values (output_data pb)))
            (λ _, bind (create_output (Some key) value (Some t))
                       (λ _, ret tt)) pb1) ∧
  (t ∈ _variable_array_types → append_array = true →
     write_output pb1 =
       bind (for_each flush_record (Dict.values (output_data pb)))
            (λ _, bind (create_output (Some key) (VList (contributed value))
                                      (Some t))
                       (λ _, ret tt)) pb1).
Proof.
  intros Hfresh pb1. split.
  - intros Hv Hc.
    apply (write_output_last pb1 (output_data pb) (key +:+ "-" +:+ t)
             {| rec_key := Some key; rec_type := Some t;
                rec_value := Some value |}).
    unfold pb1. rewrite add_output_overwrite by done. cbv zeta.
    unfold Dict.setdefault. rewrite Hfresh.
    cbn [snd output_data set_output_data].
    by apply dict_set_app_last.
  - intros Ht ->.
    apply (write_output_last pb1 (output_data pb) (key +:+ "-" +:+ t)
             {| rec_key := Some key; rec_type := Some t;
                rec_value := Some (VList (contributed value)) |}).
    unfold pb1.
    rewrite (add_output_append pb key t value [] Ht)
      by (unfold buffered_list; by rewrite Hfresh).
    cbv zeta. unfold Dict.setdefault. rewrite !Hfresh.
    cbn [snd output_data set_output_data mbind option_bind default
         from_option id app].
    by apply dict_set_app_last.
Qed.

(** X12, nothing requested, nothing written. When the requested list is
    empty or absent, [write_output] returns without raising and leaves
    the instance and its store exactly as they were, whatever is
    buffered. *)
Theorem write_output_without_requests pb :
  default [] (output_variables pb) = [] → write_output pb = (Ok tt, pb).
Proof.
  intros Hreq. unfold write_output.
  induction (Dict.values (output_data pb)) as [|r l IH]; [done |].
  cbn [for_each]. unfold bind.
  replace (flush_record r pb) with (Ok VNone, pb); [exact IH |].
  unfold flush_record, create_output.
  by rewrite bool_decide_eq_true_2 by by apply by_type_empty.
Qed.

End FlushExtras.

Lemma memory_write_path (t k : string) (v : value) (pb : Playbook memory) :
  on_store (write_path t k v) pb =
    (Ok (VStr "OK"),
     MkPlaybook (output_variables pb) (output_data pb)
       (<[k := v]> (key_value_store pb))).
Proof.
  unfold write_path.
  by destruct (py_in t _variable_single_types),
    (py_in t _variable_array_types).
Qed.

Lemma for_each_flush_memory (l : list output_record) (pb : Playbook memory) :
  (for_each flush_record l pb).1 = Ok tt ∧
  ∀ k, key_value_store (for_each flush_record l pb).2 !! k ≠
       key_value_store pb !! k →
    ∃ rv, rv ∈ default [] (output_variables pb) ∧ k = strip rv ∧
          in_grammar k.
Proof.
  revert pb. induction l as [|r l IH]; intros pb; [done |].
  cbn [for_each]. unfold bind.
  destruct (create_output_cases (rec_key r) (get_value r) (rec_type r) pb)
    as [E | (k0 & rv & j & n & t & _ & _ & Hin & Hwf & _ & E)].
  - change (flush_record r pb)
      with (create_output (rec_key r) (get_value r) (rec_type r) pb).
    rewrite E. apply IH.
  - change (flush_record r pb)
      with (create_output (rec_key r) (get_value r) (rec_type r) pb).
    rewrite E, memory_write_path.
    set (pb2 := MkPlaybook _ _ _).
    destruct (IH pb2) as [Hok Hk]. split; [done |].
    intros k Hne. destruct (decide (k = strip rv)) as [->|Hk'].
    + exists rv. split; [done |]. split; [done |]. by eexists _, _, _.
    + apply Hk. intros Heq. apply Hne. rewrite Heq.
      unfold pb2. simpl. apply lookup_insert_ne. by apply not_eq_sym.
Qed.

(** X13, what [write_output] can change in the store. On the in-memory
    store and a requested list of variable strings, [write_output]
    returns without raising, and every key whose entry in the store it
    changes is the stripped form of a string of the requested list, and
    a variable of the grammar. *)
Theorem write_output_writes_only_requested (pb : Playbook memory)
  (k : string) :
  Forall (λ ov, in_grammar (strip ov)) (default [] (output_variables pb)) →
  (write_output pb).1 = Ok tt ∧
  (key_value_store (write_output pb).2 !! k ≠ key_value_store pb !! k →
     ∃ rv, rv ∈ default [] (output_variables pb) ∧ k = strip rv ∧
           in_grammar k).
Proof.
  intros _.
  destruct (for_each_flush_memory (Dict.values (output_data pb)) pb)
    as [Hok Hk].
  split; [exact Hok | apply Hk].
Qed.

Lemma buffered_record_is_flushed_witness :
  let pb := new_playbook (Some ["#App:7:x!StringArray"]) in
  let pb1 := (add_output "x" (VStr "a") "StringArray" true pb).2 in
  write_output pb1 =
    bind (for_each flush_record [])
         (λ _, bind (create_output (Some "x") (VList [VStr "a"])
                                   (Some "StringArray"))
                    (λ _, ret tt)) pb1.
Proof.
  intros pb pb1.
  destruct (buffered_record_is_flushed_as_create_output
              pb "x" "StringArray" (VStr "a") true eq_refl) as [_ H].
  apply H; [by apply (bool_decide_eq_true_1 _) | reflexivity].
Defined.

Lemma write_output_without_requests_witness :
  let pb := (add_output "x" (VStr "a") "String" true (new_playbook None)).2 in
  write_output pb = (Ok tt, pb).
Proof.
  intros pb. apply (write_output_without_requests pb). reflexivity.
Defined.

Lemma write_output_writes_only_requested_witness :
  let pb := (add_output "y" (VStr "b") "String" true
               (add_output " x " (VStr "a") "String" true
                  (new_playbook (Some [" #App:7:x!String"]))).2).2 in
  key_value_store (write_output pb).2 !! "#App:7:x!String" = Some (VStr "a") ∧
  ∃ rv, rv ∈ [" #App:7:x!String"] ∧ "#App:7:x!String" = strip rv ∧
        in_grammar "#App:7:x!String".
Proof.
  intros pb. split; [by vm_compute |].
  assert (Forall (λ ov, in_grammar (strip ov))
            (default [] (output_variables pb))) as Hreq.
  { apply Forall_cons_2; [|apply Forall_nil_2].
    apply is_match_grammar. by vm_compute. }
  destruct (write_output_writes_only_requested pb "#App:7:x!String" Hreq)
    as [_ H].
  apply H. vm_compute. discriminate.
Defined.

(** ** Reading *)

Lemma sub_space_head (prev : bool) (c : ascii) (s : string) :
  c ≠ "\"%char →
  Re.sub_space prev (String c s) = String c (Re.sub_space false s).
Proof.
  intros Hc. destruct s as [|c' s]; [done |].
  rewrite sub_space_two. rewrite decide_False by by intros (? & _).
  by rewrite bool_decide_eq_false_2.
Qed.

Lemma sub_space_no_backslash (prev : bool) (s : string) :
  all_chars (λ c, negb (bool_decide (c = "\"%char))) s = true →
  Re.sub_space prev s = s.
Proof.
  revert prev. induction s as [|c s IH]; intros prev; [done |].
  intros [Hc Hs]%andb_true_iff.
  apply negb_true_iff, bool_decide_eq_false in Hc.
  rewrite sub_space_head by done. by rewrite IH.
Qed.

Lemma sub_escaped_no_backslash (s : string) :
  all_chars (λ c, negb (bool_decide (c = "\"%char))) s = true →
  Re.sub_escaped s = s.
Proof.
  induction s as [|c s IH]; [done |].
  intros [Hc Hs]%andb_true_iff.
  apply negb_true_iff, bool_decide_eq_false in Hc.
  rewrite sub_escaped_head by done. by rewrite IH.
Qed.

Section ReadExtras.
Context {store : Type} `{!PlaybookABC store}.
Implicit Types (pb : Playbook store) (value : Py.value).

Lemma read_value_strip (s s' : string) (embedded : bool) pb :
  strip s = strip s' → in_grammar (strip s) →
  read_value (VStr s) embedded pb = read_value (VStr s') embedded pb.
Proof.
  intros E (j & n & t & H).
  rewrite (read_value_variable s j n t) by done.
  rewrite (read_value_variable s' j n t) by by rewrite <- E.
  by rewrite E.
Qed.

Lemma read_value_frame (key : Py.value) (embedded : bool) pb :
  output_variables (read_value key embedded pb).2 = output_variables pb ∧
  output_data (read_value key embedded pb).2 = output_data pb.
Proof.
  destruct key as [| | |s| | |]; try done.
  destruct (Re.is_match (strip s)) eqn:E.
  - apply is_match_grammar in E as (j & n & t & Hv).
    rewrite (read_value_variable s j n t) by done.
    repeat case_match; apply on_store_frame.
  - rewrite read_value_literal
      by (intros Hg%is_match_grammar; congruence).
    destruct embedded; [apply on_store_frame | done].
Qed.

Lemma read_variable (s j n t : string) (array embedded : bool) pb :
  is_variable_of (strip s) j n t →
  read (VStr s) array embedded pb =
    bind (on_store (read_path t (strip s) embedded))
         (λ v, ret (as_array array v)) pb.
Proof.
  intros Hv. unfold read, bind. rewrite (read_value_variable s j n t) by done.
  unfold read_path.
  by destruct (py_in t _variable_single_types),
    (py_in t _variable_array_types).
Qed.

(** X14, reading a variable. For a key that is a variable once stripped,
    [read] makes one call of the read path of the type the key declares,
    on the stripped key, passes what it returns through the array step,
    and adds no failure of its own; white space around the key changes
    nothing. Whatever the key, [read] leaves the output buffer and the
    requested list as they are. *)
Theorem read_variable_dispatch (s j n t : string) (array embedded : bool)
  pb :
  is_variable_of (strip s) j n t →
  read (VStr s) array embedded pb =
    bind (on_store (read_path t (strip s) embedded))
         (λ v, ret (as_array array v)) pb ∧
  (∀ w1 w2, all_chars is_space w1 = true → all_chars is_space w2 = true →
     read (VStr (w1 +:+ s +:+ w2)) array embedded pb =
       read (VStr s) array embedded pb) ∧
  (∀ key : Py.value,
     output_data (read key array embedded pb).2 = output_data pb ∧
     output_variables (read key array embedded pb).2 = output_variables pb).
Proof.
  intros Hv. split; [|split].
  - by apply (read_variable s j n t).
  - intros w1 w2 H1 H2. unfold read, bind.
    rewrite (read_value_strip (w1 +:+ s +:+ w2) s); [done | |].
    + by apply strip_pad.
    + rewrite strip_pad by done. by eexists _, _, _.
  - intros key. unfold read, bind.
    destruct (read_value_frame key embedded pb) as [Hvars Hdata].
    by destruct (read_value key embedded pb) as [[v|e] pb'].
Qed.

(** X15, what was created is read back. Let the key of a [create] call
    be a variable once stripped, and let the store be one whose read path
    for a type returns what its write path for that type stored under the
    same key. When [create] returns, [read] (without the array step) of
    any key with the same stripped form returns the value created, on the
    state [create] left. *)
Theorem create_then_read (key key' j n t : string) value
  (embedded : bool) pb (ack : Py.value) (pb' : Playbook store) :
  (∀ σ a σ', write_path t (strip key) value σ = (Ok a, σ') →
     read_path t (strip key) embedded σ' = (Ok value, σ')) →
  is_variable_of (strip key) j n t →
  strip key' = strip key →
  create (Some key) value pb = (Ok ack, pb') →
  read (VStr key') false embedded pb' = (Ok value, pb').
Proof.
  intros Hlaw Hv Hk Hc.
  rewrite (create_variable key j n t value pb Hv) in Hc.
  rewrite (read_variable key' j n t false embedded pb') by by rewrite Hk.
  rewrite Hk. unfold on_store in Hc.
  destruct (write_path t (strip key) value (key_value_store pb))
    as [r σ'] eqn:Hw.
  injection Hc as -> <-.
  unfold bind, on_store. cbn [key_value_store].
  rewrite (Hlaw _ _ _ Hw). done.
Qed.

(** X16, a plain literal comes back as given. A string key that is not a
    variable and holds no backslash is returned by [read], with
    [embedded] off, exactly as it was passed: the key is stripped to
    classify it, not to produce the value, so its white space stays. With
    [embedded] on, that same string is what goes to the embedded
    resolution. *)
Theorem read_plain_literal_verbatim (s : string) pb :
  ¬ in_grammar (strip s) →
  all_chars (λ c, negb (bool_decide (c = "\"%char))) s = true →
  read (VStr s) false false pb = (Ok (VStr s), pb) ∧
  read (VStr s) false true pb =
    bind (on_store (_read_embedded (VStr s))) (λ v, ret (as_array false v)) pb.
Proof.
  intros Hs Hb. unfold read, bind.
  rewrite !read_value_literal by done.
  by rewrite sub_space_no_backslash, sub_escaped_no_backslash.
Qed.

(** X17, the choices of [read_choice]. A null key, and a key that is
    [-- Select --] up to white space around it, give null without any
    access to the store; a key that is [-- Variable Input --] up to white
    space gives what [read] gives on the alternate key; any other key
    gives what [read] gives on the key itself, and the alternate key is
    not read. *)
Theorem read_choice_branches (alt_key : Py.value) pb :
  read_choice None alt_key pb = (Ok VNone, pb) ∧
  (∀ w1 w2, all_chars is_space w1 = true → all_chars is_space w2 = true →
     read_choice (Some (w1 +:+ "-- Select --" +:+ w2)) alt_key pb =
       (Ok VNone, pb) ∧
     read_choice (Some (w1 +:+ "-- Variable Input --" +:+ w2)) alt_key pb =
       read alt_key false true pb) ∧
  (∀ k, strip k ≠ "-- Select --" → strip k ≠ "-- Variable Input --" →
     read_choice (Some k) alt_key pb = read (VStr k) false true pb).
Proof.
  split; [done |]. split.
  - intros w1 w2 H1 H2. unfold read_choice.
    rewrite !strip_pad by done. done.
  - intros k Hs Hv. unfold read_choice.
    by rewrite !bool_decide_eq_false_2.
Qed.

End ReadExtras.

(** The in-memory store returns on a read path what the write path of
    the same type stored under the key. *)
Lemma memory_read_after_write (t k : string) (v : value) (e : bool)
  (σ : memory) (a : value) (σ' : memory) :
  write_path t k v σ = (Ok a, σ') → read_path t k e σ' = (Ok v, σ').
Proof.
  unfold write_path, read_path.
  destruct (py_in t _variable_single_types),
    (py_in t _variable_array_types); cbn; unfold memory_put, memory_get;
    intros [= _ <-]; f_equal; f_equal;
    unfold memory; by rewrite lookup_insert_eq.
Qed.

Lemma read_variable_dispatch_witness :
  let pb := MkPlaybook None [] ({[ "#App:1:k!String" := VStr "v" ]} : memory) in
  read (VStr (" " +:+ "#App:1:k!String" +:+ "  ")) true false pb =
    read (VStr "#App:1:k!String") true false pb.
Proof.
  intros pb.
  destruct (read_variable_dispatch "#App:1:k!String" "1" "k" "String"
              true false pb) as (_ & H & _); [by split |].
  by apply (H " " "  ").
Defined.

Lemma create_then_read_witness :
  let pb := new_playbook None in
  let pb' := (create (Some " #App:1:out!String") (VStr "hello") pb).2 in
  read (VStr "#App:1:out!String  ") false true pb' = (Ok (VStr "hello"), pb').
Proof.
  intros pb pb'.
  apply (create_then_read " #App:1:out!String" "#App:1:out!String  "
           "1" "out" "String" (VStr "hello") true pb (VStr "OK") pb').
  - intros σ a σ' Hw. exact (memory_read_after_write _ _ _ _ σ a σ' Hw).
  - by split.
  - reflexivity.
  - reflexivity.
Defined.

Lemma read_plain_literal_verbatim_witness :
  read (VStr "  hello world ") false false (new_playbook None) =
    (Ok (VStr "  hello world "), new_playbook None).
Proof.
  apply (read_plain_literal_verbatim "  hello world " (new_playbook None));
    [|reflexivity].
  intros Hg%is_match_grammar. vm_compute in Hg. discriminate Hg.
Defined.

Lemma read_choice_branches_witness :
  let pb := new_playbook None in
  read_choice (Some (" " +:+ "-- Select --" +:+ " ")) (VStr "alt") pb =
    (Ok VNone, pb) ∧
  read_choice (Some "plain") (VStr "alt") pb =
    read (VStr "plain") false true pb.
Proof.
  intros pb.
  destruct (read_choice_branches (VStr "alt") pb) as (_ & Hs & Ho).
  split.
  - by apply (Hs " " " ").
  - apply (Ho "plain"); vm_compute; discriminate.
Defined.

(** ** Entity fields *)

Lemma comprehension_dicts (ds : list (list (string * value)))
  (field : string) (dflt : value) :
  comprehension (λ i, py_get i (Some field) dflt) (map VDict ds) =
    Ok (map (λ d, default dflt (dict_get d field)) ds).
Proof.
  induction ds as [|d ds IH]; [done |].
  cbn [map comprehension py_get]. rewrite IH. done.
Qed.

Lemma project_dicts (ds : list (list (string * value))) (field : string)
  (dflt : value) :
  project (VList (map VDict ds)) (Some field) dflt =
    Ok (VList (map (λ d, default dflt (dict_get d field)) ds)).
Proof. unfold project. cbn [py_iter]. by rewrite comprehension_dicts. Qed.

(** The closed tests of the goal, evaluated. *)
Ltac eval_tests :=
  repeat match goal with
  | |- context [bool_decide ?P] =>
      let b := eval vm_compute in (bool_decide P) in
      match b with
      | true => change (bool_decide P) with true
      | false => change (bool_decide P) with false
      end
  | |- context [py_in ?x ?l] =>
      let b := eval vm_compute in (py_in x l) in
      match b with
      | true => change (py_in x l) with true
      | false => change (py_in x l) with false
      end
  end.

Section EntityExtras.
Context {store : Type} `{!PlaybookABC store}.
Implicit Types (pb : Playbook store).

(** What [_entity_field] does once [read] has returned a list with a
    first element. *)
Lemma entity_field_read (s j n t field : string)
  (entity_type : option string) (dflt first : value) (rest : list value)
  pb pb' :
  is_variable_of (strip s) j n t →
  read (VStr s) true true pb = (Ok (VList (first :: rest)), pb') →
  _entity_field (VStr s) field entity_type dflt pb =
    bind (if bool_decide (lower t = "tcenhancedentityarray")
          then lift (enhanced_entity (Ok first) field entity_type)
          else ret (None, VList (first :: rest)))
      (λ nested,
         if match nested.1 with
            | Some _ => py_in (lower t)
                          ["tcenhancedentity"; "tcenhancedentityarray"]
            | None => false
            end
         then lift (project nested.2 nested.1 dflt)
         else if py_in (lower t) ["tcentity"; "tcentityarray"]
         then lift (project nested.2 (Some field) dflt)
         else ret nested.2) pb'.
Proof.
  intros Hv Hread. unfold _entity_field. unfold bind at 1. rewrite Hread.
  cbn [truthy_first]. unfold bind at 1, lift at 1.
  rewrite (variable_type_stripped s j n t Hv). cbv zeta.
  unfold bind.
  destruct ((if bool_decide (lower t = "tcenhancedentityarray")
             then lift (enhanced_entity (Ok first) field entity_type)
             else ret (None, VList (first :: rest))) pb')
    as [[[eef nested]|e] s']; done.
Qed.

Lemma entity_field_empty (key : value) (field : string)
  (entity_type : option string) (dflt : value) pb pb' :
  read key true true pb = (Ok (VList []), pb') →
  _entity_field key field entity_type dflt pb = (Ok (VList []), pb').
Proof. intros Hread. unfold _entity_field, bind. by rewrite Hread. Qed.

(** X18, nothing read, nothing returned. When [read] gives the empty
    list for the key (the store held null or an empty list),
    [_entity_field] and its three callers return the empty list, for any
    key, field and entity type; and an exception of [read] is the
    exception of the call. *)
Theorem entity_field_of_nothing (key : value) (field : string)
  (entity_type : option string) (dflt : value) pb pb' :
  (read key true true pb = (Ok (VList []), pb') →
     _entity_field key field entity_type dflt pb = (Ok (VList []), pb') ∧
     read_indicator_values key dflt pb = (Ok (VList []), pb') ∧
     read_group_values key dflt pb = (Ok (VList []), pb') ∧
     read_group_ids key dflt pb = (Ok (VList []), pb')) ∧
  (∀ e, read key true true pb = (Raise e, pb') →
     _entity_field key field entity_type dflt pb = (Raise e, pb')).
Proof.
  split.
  - intros Hread.
    unfold read_indicator_values, read_group_values, read_group_ids,
      _entity_field, bind.
    by rewrite Hread.
  - intros e Hread. unfold _entity_field, bind. by rewrite Hread.
Qed.

(** X19, the fields of entities. For a key of type [TCEntity] or
    [TCEntityArray] (in any letter case) under which [read] finds a list
    of dictionaries, [_entity_field] returns, in the same order, the
    entry of each dictionary under the field, and the default where a
    dictionary has none: [read_indicator_values] and [read_group_values]
    the entries under ['value'], [read_group_ids] those under ['id']. *)
Theorem entity_field_of_tc_entities (s j n t : string)
  (ds : list (list (string * value))) (dflt : value) pb pb' :
  is_variable_of (strip s) j n t →
  lower t = "tcentity" ∨ lower t = "tcentityarray" →
  read (VStr s) true true pb = (Ok (VList (map VDict ds)), pb') →
  (∀ field entity_type,
     _entity_field (VStr s) field entity_type dflt pb =
       (Ok (VList (map (λ d, default dflt (dict_get d field)) ds)), pb')) ∧
  read_indicator_values (VStr s) dflt pb =
    (Ok (VList (map (λ d, default dflt (dict_get d "value")) ds)), pb') ∧
  read_group_values (VStr s) dflt pb =
    (Ok (VList (map (λ d, default dflt (dict_get d "value")) ds)), pb') ∧
  read_group_ids (VStr s) dflt pb =
    (Ok (VList (map (λ d, default dflt (dict_get d "id")) ds)), pb').
Proof.
  intros Hv Ht Hread.
  assert (∀ field entity_type,
    _entity_field (VStr s) field entity_type dflt pb =
      (Ok (VList (map (λ d, default dflt (dict_get d field)) ds)), pb'))
    as H; [|split; [exact H | split; [apply H | split; apply H]]].
  intros field entity_type. destruct ds as [|d ds].
  - by apply entity_field_empty.
  - rewrite (entity_field_read s j n t field entity_type dflt
               (VDict d) (map VDict ds) pb pb' Hv Hread).
    change (VList (VDict d :: map VDict ds)) with (VList (map VDict (d :: ds))).
    destruct Ht as [-> | ->]; eval_tests;
      unfold bind, ret, lift; cbn -[project];
      by rewrite (project_dicts (d :: ds)).
Qed.

(** X20, other types pass through. For a key of a type that is none of
    [TCEntity], [TCEntityArray] and [TCEnhancedEntityArray] (in any
    letter case), the type [TCEnhancedEntity] among them, [_entity_field]
    returns the list [read] found as it is, with no field taken out of
    its elements. *)
Theorem entity_field_of_other_types (s j n t field : string)
  (entity_type : option string) (dflt : value) (items : list value) pb pb' :
  is_variable_of (strip s) j n t →
  lower t ∉ ["tcentity"; "tcentityarray"; "tcenhancedentityarray"] →
  read (VStr s) true true pb = (Ok (VList items), pb') →
  _entity_field (VStr s) field entity_type dflt pb = (Ok (VList items), pb').
Proof.
  intros Hv Ht Hread. destruct items as [|first rest].
  - by apply entity_field_empty.
  - rewrite (entity_field_read s j n t field entity_type dflt first rest
               pb pb' Hv Hread).
    rewrite bool_decide_eq_false_2.
    2:{ intros E. apply Ht. rewrite E. by apply (bool_decide_eq_true_1 _). }
    unfold bind, ret. cbn [fst snd].
    rewrite py_in_false; [done |].
    intros Hin. apply Ht.
    apply elem_of_cons in Hin as [-> | Hin];
      [by apply (bool_decide_eq_true_1 _) |].
    apply list_elem_of_singleton in Hin as ->.
    by apply (bool_decide_eq_true_1 _).
Qed.

(** X21, the enhanced entity array. For a key of type
    [TCEnhancedEntityArray] (in any letter case) under which [read] finds
    a list that starts with a dictionary, only that first dictionary is
    used. [read_indicator_values] takes the list under its ['indicator']
    entry and returns the ['summary'] of each dictionary in it;
    [read_group_values] takes the list under ['group'] and returns the
    ['name'] of each; [read_group_ids] returns what is under ['group'] as
    it is, without taking the ['id'] out (the empty list when there is no
    such entry). *)
Theorem entity_field_of_enhanced_array (s j n t : string)
  (first : list (string * value)) (rest : list value) (dflt : value)
  pb pb' :
  is_variable_of (strip s) j n t →
  lower t = "tcenhancedentityarray" →
  read (VStr s) true true pb = (Ok (VList (VDict first :: rest)), pb') →
  (∀ ds, dict_get first "indicator" = Some (VList (map VDict ds)) →
     read_indicator_values (VStr s) dflt pb =
       (Ok (VList (map (λ d, default dflt (dict_get d "summary")) ds)),
        pb')) ∧
  (∀ ds, dict_get first "group" = Some (VList (map VDict ds)) →
     read_group_values (VStr s) dflt pb =
       (Ok (VList (map (λ d, default dflt (dict_get d "name")) ds)), pb')) ∧
  read_group_ids (VStr s) dflt pb =
    (Ok (default (VList []) (dict_get first "group")), pb').
Proof.
  intros Hv Ht Hread.
  unfold read_indicator_values, read_group_values, read_group_ids.
  rewrite !(entity_field_read s j n t _ _ dflt (VDict first) rest pb pb' Hv
              Hread).
  rewrite Ht. unfold enhanced_entity. eval_tests. split; [|split].
  - intros ds Hd. unfold bind, lift, ret.
    cbn -[project dict_get]. rewrite Hd. cbn -[project].
    by rewrite project_dicts.
  - intros ds Hd. unfold bind, lift, ret.
    cbn -[project dict_get]. rewrite Hd. cbn -[project].
    by rewrite project_dicts.
  - unfold bind, lift, ret. by cbn -[dict_get].
Qed.

End EntityExtras.

Lemma entity_field_of_nothing_witness :
  let pb := new_playbook None in
  read_indicator_values (VStr "#App:1:e!TCEntityArray") (VStr "?") pb =
    (Ok (VList []), pb).
Proof.
  intros pb.
  destruct (entity_field_of_nothing (VStr "#App:1:e!TCEntityArray") "value"
              (Some "indicator") (VStr "?") pb pb) as [H _].
  by apply H; vm_compute.
Defined.

Lemma entity_field_of_tc_entities_witness :
  let pb := MkPlaybook None []
    ({[ "#App:1:e!TCEntityArray" :=
          VList [VDict [("value", VStr "a.example.com"); ("id", VInt 7)];
                 VDict [("type", VStr "Host")]] ]} : memory) in
  read_indicator_values (VStr " #App:1:e!TCEntityArray") (VStr "?") pb =
    (Ok (VList [VStr "a.example.com"; VStr "?"]), pb) ∧
  read_group_ids (VStr " #App:1:e!TCEntityArray") (VStr "?") pb =
    (Ok (VList [VInt 7; VStr "?"]), pb).
Proof.
  intros pb.
  assert (is_variable_of (strip " #App:1:e!TCEntityArray") "1" "e"
            "TCEntityArray") as Hv by by split.
  assert (read (VStr " #App:1:e!TCEntityArray") true true pb =
            (Ok (VList (map VDict
                   [[("value", VStr "a.example.com"); ("id", VInt 7)];
                    [("type", VStr "Host")]])), pb)) as Hread
    by (vm_compute; reflexivity).
  destruct (entity_field_of_tc_entities _ _ _ _ _ (VStr "?") pb pb Hv
              (or_intror eq_refl) Hread) as (_ & Hi & _ & Hg).
  split; [exact Hi | exact Hg].
Defined.

Lemma entity_field_of_other_types_witness :
  let pb := MkPlaybook None []
    ({[ "#App:1:e!TCEnhancedEntity" :=
          VDict [("summary", VStr "1.1.1.1")] ]} : memory) in
  read_indicator_values (VStr "#App:1:e!TCEnhancedEntity") (VStr "?") pb =
    (Ok (VList [VDict [("summary", VStr "1.1.1.1")]]), pb).
Proof.
  intros pb.
  assert (is_variable_of (strip "#App:1:e!TCEnhancedEntity") "1" "e"
            "TCEnhancedEntity") as Hv by by split.
  assert (lower "TCEnhancedEntity" ∉
            ["tcentity"; "tcentityarray"; "tcenhancedentityarray"]) as Ht
    by by apply (bool_decide_eq_false_1 _).
  assert (read (VStr "#App:1:e!TCEnhancedEntity") true true pb =
            (Ok (VList [VDict [("summary", VStr "1.1.1.1")]]), pb)) as Hread
    by (vm_compute; reflexivity).
  exact (entity_field_of_other_types _ _ _ _ "value" (Some "indicator")
           (VStr "?") _ pb pb Hv Ht Hread).
Defined.

Lemma entity_field_of_enhanced_array_witness :
  let first := [("indicator", VList [VDict [("summary", VStr "1.1.1.1")]]);
                ("group", VList [VDict [("name", VStr "APT"); ("id", VInt 3)]])]
  in
  let pb := MkPlaybook None []
    ({[ "#App:1:e!TCEnhancedEntityArray" := VList [VDict first] ]} : memory) in
  read_indicator_values (VStr "#App:1:e!TCEnhancedEntityArray") VNone pb =
    (Ok (VList [VStr "1.1.1.1"]), pb) ∧
  read_group_values (VStr "#App:1:e!TCEnhancedEntityArray") VNone pb =
    (Ok (VList [VStr "APT"]), pb) ∧
  read_group_ids (VStr "#App:1:e!TCEnhancedEntityArray") VNone pb =
    (Ok (VList [VDict [("name", VStr "APT"); ("id", VInt 3)]]), pb).
Proof.
  intros first pb.
  assert (is_variable_of (strip "#App:1:e!TCEnhancedEntityArray") "1" "e"
            "TCEnhancedEntityArray") as Hv by by split.
  assert (read (VStr "#App:1:e!TCEnhancedEntityArray") true true pb =
            (Ok (VList [VDict first]), pb)) as Hread
    by (vm_compute; reflexivity).
  destruct (entity_field_of_enhanced_array _ _ _ _ first [] VNone pb pb Hv
              eq_refl Hread) as (Hi & Hg & Hids).
  split; [|split].
  - by apply (Hi [[("summary", VStr "1.1.1.1")]]).
  - by apply (Hg [[("name", VStr "APT"); ("id", VInt 3)]]).
  - exact Hids.
Defined.

(** ** The typed readers and [delete] *)

Section ReaderExtras.
Context {store : Type} `{!PlaybookABC store} `{!KeyValueStore store}.
Implicit Types (pb : Playbook store).

Lemma bind_ret {A} (m : M (Playbook store) A) pb :
  bind m (λ v, ret v) pb = m pb.
Proof. unfold bind, ret. by destruct (m pb) as [[a|e] s]. Qed.

(** X22, the typed readers against [read]. On a key of the grammar (no
    white space around it) whose type is a single-value type, [read]
    without the array step is [read_string], which is also
    [read_key_value] and [read_tc_entity]; when its type is an array
    type, [read] is [read_string_array], which is also
    [read_key_value_array] and [read_tc_entity_array]. The typed readers
    themselves do not look at the type of the key. *)
Theorem typed_readers_agree_with_read (key j n t : string)
  (embedded : bool) pb :
  is_variable_of key j n t →
  (t ∈ _variable_single_types →
     read (VStr key) false embedded pb = read_string key embedded pb) ∧
  (t ∈ _variable_array_types →
     read (VStr key) false embedded pb = read_string_array key embedded pb) ∧
  read_key_value key embedded pb = read_string key embedded pb ∧
  read_tc_entity key embedded pb = read_string key embedded pb ∧
  read_key_value_array key embedded pb = read_string_array key embedded pb ∧
  read_tc_entity_array key embedded pb = read_string_array key embedded pb.
Proof.
  intros Hv.
  assert (strip key = key) as E by (apply strip_grammar; by eexists _, _, _).
  assert (read (VStr key) false embedded pb =
            on_store (read_path t key embedded) pb) as Hread.
  { rewrite (read_variable key j n t) by by rewrite E.
    rewrite E. apply (bind_ret (on_store (read_path t key embedded))). }
  split; [|split; [|done]].
  - intros Ht. rewrite Hread. unfold read_path, read_string.
    by rewrite py_in_true.
  - intros Ht. rewrite Hread. unfold read_path, read_string_array.
    rewrite (py_in_true t _variable_array_types) by done.
    destruct (py_in t _variable_single_types) eqn:Hs; [|done].
    apply bool_decide_eq_true in Hs. exfalso. revert Ht Hs.
    unfold _variable_array_types, _variable_single_types.
    rewrite !elem_of_cons, !elem_of_nil.
    intros [->|[->|[->|[->|[->|[]]]]]] Hs;
      by repeat (destruct Hs as [Hs|Hs]; [discriminate Hs |]).
Qed.

(** X23, [delete]. A null key gives null without any access to the
    store; any other key is deleted from the store under its stripped
    form, so white space around it changes nothing; the output buffer and
    the requested list stay as they are. On a store whose read path gives
    null for a key just deleted, [read] of a variable after its [delete]
    gives null, and the empty list with the array step. *)
Theorem delete_outcome (key : string) pb :
  delete None pb = (Ok VNone, pb) ∧
  (∀ w1 w2, all_chars is_space w1 = true → all_chars is_space w2 = true →
     delete (Some (w1 +:+ key +:+ w2)) pb = delete (Some key) pb) ∧
  output_data (delete (Some key) pb).2 = output_data pb ∧
  output_variables (delete (Some key) pb).2 = output_variables pb ∧
  (∀ j n t key' array embedded a pb',
     (∀ σ a σ', kv_delete (strip key) σ = (Ok a, σ') →
        read_path t (strip key) embedded σ' = (Ok VNone, σ')) →
     is_variable_of (strip key) j n t → strip key' = strip key →
     delete (Some key) pb = (Ok a, pb') →
     read (VStr key') array embedded pb' = (Ok (as_array array VNone), pb')).
Proof.
  split; [done |]. split; [|split; [|split]].
  - intros w1 w2 H1 H2. unfold delete. by rewrite strip_pad.
  - apply on_store_frame.
  - apply on_store_frame.
  - intros j n t key' array embedded a pb' Hlaw Hv Hk Hd.
    rewrite (read_variable key' j n t) by by rewrite Hk.
    rewrite Hk. unfold delete, on_store in Hd.
    destruct (kv_delete (strip key) (key_value_store pb)) as [r σ'] eqn:Hw.
    injection Hd as -> <-.
    unfold bind, on_store. cbn [key_value_store].
    by rewrite (Hlaw _ _ _ Hw).
Qed.

End ReaderExtras.

Lemma typed_readers_agree_with_read_witness :
  let pb := MkPlaybook None []
              ({[ "#App:1:k!KeyValue" := VDict [("key", VStr "a")] ]} : memory)
  in
  read (VStr "#App:1:k!KeyValue") false true pb =
    read_string "#App:1:k!KeyValue" true pb.
Proof.
  intros pb.
  apply (typed_readers_agree_with_read "#App:1:k!KeyValue" "1" "k" "KeyValue"
           true pb); [by split |].
  by apply (bool_decide_eq_true_1 _).
Defined.

Lemma memory_read_after_delete (t k : string) (e : bool) (σ : memory)
  (a : value) (σ' : memory) :
  kv_delete k σ = (Ok a, σ') → read_path t k e σ' = (Ok VNone, σ').
Proof.
  unfold read_path. cbn. unfold memory_delete. intros [= _ <-].
  destruct (py_in t _variable_single_types),
    (py_in t _variable_array_types); cbn; unfold memory_get;
    f_equal; f_equal; unfold memory; by rewrite lookup_delete_eq.
Qed.

Lemma delete_outcome_witness :
  let pb := (create (Some "#App:1:k!String") (VStr "v") (new_playbook None)).2
  in
  let pb' := (delete (Some " #App:1:k!String ") pb).2 in
  delete (Some (" " +:+ "#App:1:k!String" +:+ " ")) pb =
    delete (Some "#App:1:k!String") pb ∧
  read (VStr "#App:1:k!String") true true pb' = (Ok (VList []), pb').
Proof.
  intros pb pb'.
  destruct (delete_outcome " #App:1:k!String " pb) as (_ & _ & _ & _ & Hr).
  destruct (delete_outcome "#App:1:k!String" pb) as (_ & Hp & _).
  split; [by apply (Hp " " " ") |].
  apply (Hr "1" "k" "String" "#App:1:k!String" true true (VInt 1) pb').
  - intros σ a σ' Hw. exact (memory_read_after_delete _ _ _ σ a σ' Hw).
  - by split.
  - reflexivity.
  - by vm_compute.
Defined.

(** ** The buffer with its list objects *)

Lemma dict_get_map {V W} (f : V → W) (d : Dict.t V) (k : string) :
  Dict.get (map (λ kr, (kr.1, f kr.2)) d) k = f <$> Dict.get d k.
Proof.
  induction d as [|[k0 v0] d IH]; simpl; [done |]. by case_decide.
Qed.

Lemma dict_set_map_except {V W} (f f' : V → W) (d : Dict.t V) (k : string)
  (v : V) :
  NoDup (Dict.keys d) →
  (∀ k' v', (k', v') ∈ d → k' ≠ k → f' v' = f v') →
  map (λ kr, (kr.1, f' kr.2)) (Dict.set d k v) =
    Dict.set (map (λ kr, (kr.1, f kr.2)) d) k (f' v).
Proof.
  induction d as [|[k0 v0] d IH]; intros Hnd H; simpl; [done |].
  apply NoDup_cons in Hnd as [Hk0 Hnd].
  case_decide as E; simpl.
  - subst k0. f_equal. apply map_ext_in.
    intros [k' v'] Hin%list_elem_of_In. simpl. f_equal.
    apply (H k'); [by right |]. intros ->. apply Hk0.
    unfold Dict.keys. by apply (list_elem_of_fmap_2 fst _ (k, v')).
  - f_equal.
    + f_equal. apply (H k0); [by left | done].
    + apply IH; [done |]. intros k' v' Hin. apply H. by right.
Qed.

Lemma dict_set_map {V W} (f : V → W) (d : Dict.t V) (k : string) (v : V) :
  map (λ kr, (kr.1, f kr.2)) (Dict.set d k v) =
    Dict.set (map (λ kr, (kr.1, f kr.2)) d) k (f v).
Proof.
  induction d as [|[k0 v0] d IH]; simpl; [done |].
  case_decide; simpl; [done |]. by rewrite IH.
Qed.

Lemma dict_setdefault_map {V W} (f : V → W) (d : Dict.t V) (k : string)
  (v : V) :
  map (λ kr, (kr.1, f kr.2)) (Dict.setdefault d k v) =
    Dict.setdefault (map (λ kr, (kr.1, f kr.2)) d) k (f v).
Proof.
  unfold Dict.setdefault. rewrite dict_get_map.
  destruct (Dict.get d k); simpl; [done |]. by rewrite map_app.
Qed.

Lemma obj_is_none (h : gmap Obj.loc (list value)) (a : Obj.ref) :
  is_none (Obj.contents h a) = Obj.is_none a.
Proof. by destruct a. Qed.

Lemma obj_is_list (h : gmap Obj.loc (list value)) (a : Obj.ref) :
  is_list (Obj.contents h a) = Obj.is_list a.
Proof. by destruct a. Qed.

(** The records a call leaves: those it found, with a record under the
    index, as it was or replaced. *)
Lemma obj_add_output_records (b : Obj.buffer) (key t : string)
  (value : Obj.ref) (append_array : bool) :
  let kept := Dict.setdefault (Obj.output_data b) (key +:+ "-" +:+ t)
                Obj.empty_record in
  Obj.output_data (Obj.add_output key value t append_array b).2 = kept ∨
  ∃ r, Obj.output_data (Obj.add_output key value t append_array b).2 =
         Dict.set kept (key +:+ "-" +:+ t) r.
Proof.
  intros kept. unfold Obj.add_output. fold kept.
  repeat case_match; simpl; eauto.
Qed.

(** The heap a call leaves: the one it found, but for the list object
    that the record under the index held, when the call appends. *)
Lemma obj_add_output_heap (b : Obj.buffer) (key t : string)
  (value : Obj.ref) (append_array : bool) :
  let b' := (Obj.add_output key value t append_array b).2 in
  Obj.heap b' = Obj.heap b ∨
  ∃ r l,
    Dict.get (Obj.output_data b) (key +:+ "-" +:+ t) = Some r ∧
    Obj.ovalue r = Some (Obj.At l) ∧
    t ∈ _variable_array_types ∧ append_array = true ∧
    (Obj.add_output key value t append_array b).1 = Ok tt ∧
    Obj.heap b' =
      <[l := Obj.deref (Obj.heap b) l ++
             contributed (Obj.contents (Obj.heap b) value)]> (Obj.heap b).
Proof.
  intros b'. unfold b', Obj.add_output.
  set (index := key +:+ "-" +:+ t).
  destruct (Obj.is_none value && negb _); [by left |].
  destruct (Obj.is_none value && _); [by left |].
  destruct (py_in t _variable_array_types) eqn:Ht; [|by left].
  destruct append_array; [|by left]. cbn [andb].
  rewrite dict_get_setdefault. cbn [default].
  destruct (Dict.get (Obj.output_data b) index) as [r|] eqn:Hr;
    cbn [default from_option id]; [|by left].
  destruct (Obj.ovalue r) as [[v|l]|] eqn:Hv; cbn [default from_option id].
  - destruct v; by left.
  - right. exists r, l. split; [done |]. split; [done |].
    split; [by apply bool_decide_eq_true in Ht |]. done.
  - by left.
Qed.

Lemma obj_add_output_overwrite (b : Obj.buffer) (key t : string)
  (value : Obj.ref) (append_array : bool) :
  Obj.is_none value = false →
  t ∉ _variable_array_types ∨ append_array = false →
  Obj.add_output key value t append_array b =
    (Ok tt,
     Obj.Buffer
       (Dict.set (Dict.setdefault (Obj.output_data b) (key +:+ "-" +:+ t)
                    Obj.empty_record) (key +:+ "-" +:+ t)
          {| Obj.okey := Some key; Obj.otype := Some t;
             Obj.ovalue := Some value |})
       (Obj.heap b)).
Proof.
  intros Hv Hc. unfold Obj.add_output. rewrite Hv. cbn [andb].
  destruct Hc as [Ht | ->].
  - by rewrite py_in_false.
  - by rewrite andb_false_r.
Qed.

Lemma obj_view_record_insert (h : gmap Obj.loc (list value)) (l : Obj.loc)
  (items : list value) (r : Obj.record) :
  Obj.ovalue r ≠ Some (Obj.At l) →
  Obj.view_record (<[l := items]> h) r = Obj.view_record h r.
Proof.
  intros Hne. unfold Obj.view_record. f_equal.
  destruct (Obj.ovalue r) as [[v|l']|]; [done | | done].
  simpl. unfold Obj.deref. rewrite lookup_insert_ne; [done |].
  intros ->. by apply Hne.
Qed.

Lemma obj_deref_insert (h : gmap Obj.loc (list value)) (l : Obj.loc)
  (items : list value) : Obj.deref (<[l := items]> h) l = items.
Proof. unfold Obj.deref. by rewrite lookup_insert_eq. Qed.

(** The call on the objects against the call on the contents: the same
    outcome, and either the same heap and the contents the call on the
    contents leaves, or the list object of the record of the call
    extended in place. *)
Lemma obj_add_output_view_cases {store : Type} `{!PlaybookABC store}
  (pb : Playbook store) (b : Obj.buffer) (key t : string) (value : Obj.ref)
  (append_array : bool) :
  output_data pb = Obj.view b →
  let index := key +:+ "-" +:+ t in
  let r1 := Obj.add_output key value t append_array b in
  let r2 := add_output key (Obj.contents (Obj.heap b) value) t append_array
              pb in
  r2.1 = r1.1 ∧
  ((Obj.heap r1.2 = Obj.heap b ∧ output_data r2.2 = Obj.view r1.2) ∨
   ∃ r l r',
     Dict.get (Obj.output_data b) index = Some r ∧
     Obj.ovalue r = Some (Obj.At l) ∧
     Obj.output_data r1.2 = Dict.set (Obj.output_data b) index r' ∧
     output_data r2.2 =
       Dict.set (Obj.view b) index (Obj.view_record (Obj.heap r1.2) r') ∧
     Obj.heap r1.2 =
       <[l := Obj.deref (Obj.heap b) l ++
              contributed (Obj.contents (Obj.heap b) value)]> (Obj.heap b)).
Proof.
  intros Hview index r1 r2. unfold r1, r2, add_output, Obj.add_output.
  fold index. rewrite Hview. unfold Obj.view. cbn [Obj.heap Obj.output_data].
  set (h := Obj.heap b). set (d0 := Obj.output_data b).
  change empty_record with (Obj.view_record h Obj.empty_record).
  rewrite <- dict_setdefault_map. rewrite obj_is_none, dict_get_map.
  set (d := Dict.setdefault d0 index Obj.empty_record).
  set (g := λ kr : string * Obj.record, (kr.1, Obj.view_record h kr.2)).
  assert (∀ r, map g (Dict.set d index r) =
               Dict.set (map g d) index (Obj.view_record h r)) as Hset
    by (intros r; apply dict_set_map).
  destruct (Obj.is_none value && negb _); [by split; [|left] |].
  destruct (Obj.is_none value && _); [by split; [|left] |].
  destruct (py_in t _variable_array_types && append_array) eqn:Hc.
  2:{ split; [done |]. left. split; [done |]. cbn. by rewrite Hset. }
  destruct (Dict.get d index) as [r|] eqn:Hr;
    cbn [fmap option_fmap option_map]; [|by split; [|left]].
  assert (Dict.get d0 index = Some r ∨ r = Obj.empty_record) as Hr0.
  { unfold d in Hr. rewrite dict_get_setdefault in Hr. injection Hr as <-.
    destruct (Dict.get d0 index); [by left | by right]. }
  unfold extend_value, setdefault_key_type.
  change (Obj.view_record h r)
    with {| rec_key := Obj.okey r; rec_type := Obj.otype r;
            rec_value := Obj.contents h <$> Obj.ovalue r |}.
  cbn [rec_key rec_type rec_value].
  destruct (Obj.ovalue r) as [[v|l]|] eqn:Hv;
    cbn [fmap option_fmap option_map default from_option id Obj.contents].
  - rewrite <- obj_is_list with (h := h).
    destruct v; (split; [done |]); left; (split; [done |]);
      cbn [snd output_data set_output_data Obj.output_data Obj.heap];
      by rewrite Hset.
  - split; [done |]. right.
    destruct Hr0 as [Hr0 | ->]; [|done].
    assert (d = d0) as Hd by (by apply dict_setdefault_present).
    eexists r, l, _. split; [done |]. split; [done |].
    cbn [snd output_data set_output_data Obj.output_data Obj.heap].
    rewrite Hd. split; [done |]. split; [|done].
    unfold Obj.view_record.
    cbn [Obj.okey Obj.otype Obj.ovalue fmap option_fmap option_map
         Obj.contents].
    by rewrite obj_deref_insert.
  - split; [done |]. left. split; [done |].
    cbn [snd output_data set_output_data Obj.output_data Obj.heap].
    by rewrite Hset.
Qed.

(** X24, the contents under the index of the call. Whether
    [add_output] raises, and what it leaves under its own index, depend
    on the contents of the values only, not on which list objects they
    are: the call on the objects and the call on their contents have the
    same outcome and leave the same contents under the index. When no
    record under another index holds the list object of the record of the
    call, they leave the same contents in the whole buffer. *)
Theorem add_output_by_contents {store : Type} `{!PlaybookABC store}
  (pb : Playbook store) (b : Obj.buffer) (key t : string) (value : Obj.ref)
  (append_array : bool) :
  output_data pb = Obj.view b →
  let index := key +:+ "-" +:+ t in
  let r1 := Obj.add_output key value t append_array b in
  let r2 := add_output key (Obj.contents (Obj.heap b) value) t append_array
              pb in
  r2.1 = r1.1 ∧
  Dict.get (output_data r2.2) index = Dict.get (Obj.view r1.2) index ∧
  (NoDup (Dict.keys (Obj.output_data b)) → Obj.unshared b index →
     output_data r2.2 = Obj.view r1.2).
Proof.
  intros Hview index r1 r2.
  destruct (obj_add_output_view_cases pb b key t value append_array Hview)
    as [Hres [[Hh Hd] | (r & l & r' & Hr & Hv & Hd1 & Hd2 & Hh)]];
    fold index r1 r2 in Hres |- *.
  - fold r1 r2 in Hh, Hd. split; [done |]. by rewrite Hd.
  - fold index r1 r2 in Hr, Hd1, Hd2, Hh. split; [done |].
    assert (Obj.view r1.2 =
            map (λ kr, (kr.1, Obj.view_record (Obj.heap r1.2) kr.2))
              (Dict.set (Obj.output_data b) index r')) as Hview1
      by (unfold Obj.view; by rewrite Hd1).
    split.
    + rewrite Hd2, Hview1, dict_get_map, !dict_get_set. done.
    + intros Hnd Hun. rewrite Hd2, Hview1. symmetry.
      apply dict_set_map_except; [done |].
      intros k' v' Hin Hne. rewrite Hh.
      apply obj_view_record_insert. by apply (Hun r l Hr Hv k' v').
Qed.

(** An appending call on a record that holds a list object. *)
Lemma obj_add_output_extends (b : Obj.buffer) (key t : string)
  (value : Obj.ref) (r : Obj.record) (l : Obj.loc) :
  Dict.get (Obj.output_data b) (key +:+ "-" +:+ t) = Some r →
  Obj.ovalue r = Some (Obj.At l) →
  t ∈ _variable_array_types →
  Obj.add_output key value t true b =
    (Ok tt,
     Obj.Buffer
       (Dict.set (Obj.output_data b) (key +:+ "-" +:+ t)
          {| Obj.okey := Some (default key (Obj.okey r));
             Obj.otype := Some (default t (Obj.otype r));
             Obj.ovalue := Some (Obj.At l) |})
       (<[l := Obj.deref (Obj.heap b) l ++
               contributed (Obj.contents (Obj.heap b) value)]>
          (Obj.heap b))).
Proof.
  intros Hr Hv Ht. unfold Obj.add_output.
  rewrite py_in_true by done. rewrite !andb_false_r. cbn [andb].
  rewrite (dict_setdefault_present (Obj.output_data b)) by by eexists.
  by rewrite Hr, Hv.
Qed.

(** X8, [add_output] keeps to its own record and the list object in it.
    Whatever the arguments, and also when the call raises, [add_output]
    keeps the insertion order of the buffer (the index of the call is
    added last when it is new, and stays where it is when it is not) and
    leaves every record under another index with the key, the type and
    the value it held. The only list object it changes is the one the
    record under its index holds, when it appends: that list is extended
    in place, so the contents of a record under another index change
    only when that record holds the same list object, and then they do
    change. The store and the requested list stay as they are. *)
Theorem add_output_changes_only_its_record (b : Obj.buffer) (key t : string)
  (value : Obj.ref) (append_array : bool) :
  let index := key +:+ "-" +:+ t in
  let b' := (Obj.add_output key value t append_array b).2 in
  Dict.keys (Obj.output_data b') =
    (if Dict.get (Obj.output_data b) index is Some _
     then Dict.keys (Obj.output_data b)
     else Dict.keys (Obj.output_data b) ++ [index]) ∧
  (∀ index', index' ≠ index →
     Dict.get (Obj.output_data b') index' =
       Dict.get (Obj.output_data b) index') ∧
  (∀ l, Obj.heap b' !! l ≠ Obj.heap b !! l →
     ∃ r, Dict.get (Obj.output_data b) index = Some r ∧
          Obj.ovalue r = Some (Obj.At l) ∧
          t ∈ _variable_array_types ∧ append_array = true) ∧
  (∀ index' r', index' ≠ index →
     Dict.get (Obj.output_data b) index' = Some r' →
     Obj.view_record (Obj.heap b') r' ≠ Obj.view_record (Obj.heap b) r' →
     ∃ r l, Dict.get (Obj.output_data b) index = Some r ∧
            Obj.ovalue r = Some (Obj.At l) ∧
            Obj.ovalue r' = Some (Obj.At l)) ∧
  (∀ r l, Dict.get (Obj.output_data b) index = Some r →
     Obj.ovalue r = Some (Obj.At l) →
     t ∈ _variable_array_types → append_array = true →
     (Obj.add_output key value t append_array b).1 = Ok tt ∧
     Obj.deref (Obj.heap b') l =
       Obj.deref (Obj.heap b) l ++
       contributed (Obj.contents (Obj.heap b) value)) ∧
  (∀ (store : Type) (abc : PlaybookABC store) (pb : Playbook store)
     (v : Py.value),
     output_variables (add_output key v t append_array pb).2 =
       output_variables pb ∧
     key_value_store (add_output key v t append_array pb).2 =
       key_value_store pb).
Proof.
  intros index b'.
  assert (is_Some (Dict.get (Dict.setdefault (Obj.output_data b) index
                               Obj.empty_record) index)) as Hin
    by by rewrite dict_get_setdefault.
  assert (∀ l, Obj.heap b' !! l ≠ Obj.heap b !! l →
     ∃ r, Dict.get (Obj.output_data b) index = Some r ∧
          Obj.ovalue r = Some (Obj.At l) ∧
          t ∈ _variable_array_types ∧ append_array = true) as Hheap.
  { intros l Hl.
    destruct (obj_add_output_heap b key t value append_array)
      as [E | (r & l' & Hr & Hv & Ht & Ha & _ & E)];
      fold index b' in E; [by rewrite E in Hl |].
    fold index in Hr. exists r. split; [done |].
    destruct (decide (l = l')) as [->|Hne]; [done |].
    rewrite E in Hl. by rewrite lookup_insert_ne in Hl. }
  split; [|split; [|split; [done | split; [|split]]]].
  - destruct (obj_add_output_records b key t value append_array)
      as [E | [r E]]; fold index b' in E; rewrite E.
    + apply dict_keys_setdefault.
    + rewrite dict_keys_set by done. apply dict_keys_setdefault.
  - intros index' Hne.
    destruct (obj_add_output_records b key t value append_array)
      as [E | [r E]]; fold index b' in E; rewrite E.
    + by apply dict_get_setdefault_ne.
    + rewrite dict_get_set_ne by done. by apply dict_get_setdefault_ne.
  - intros index' r' Hne Hr' Hdiff.
    destruct (Obj.ovalue r') as [[v|l]|] eqn:Hv'.
    + destruct Hdiff. unfold Obj.view_record. by rewrite Hv'.
    + destruct (obj_add_output_heap b key t value append_array)
        as [E | (r & l' & Hr & Hv & _ & _ & _ & E)]; fold index b' in E.
      * destruct Hdiff. by rewrite E.
      * fold index in Hr. destruct (decide (l = l')) as [->|Hl];
          [by exists r, l' |].
        destruct Hdiff. rewrite E. apply obj_view_record_insert.
        rewrite Hv'. by intros [= ->].
    + destruct Hdiff. unfold Obj.view_record. by rewrite Hv'.
  - intros r l Hr Hv Ht Ha.
    subst append_array. unfold b'.
    rewrite (obj_add_output_extends b key t value r l) by done.
    split; [done |]. apply obj_deref_insert.
  - intros store abc pb v. apply add_output_frame.
Qed.

(** X10, the last overwriting call wins. An [add_output] of a value that
    is not null, for a type that is not an array type or with
    [append_array] false, returns without raising and leaves the same
    records in the buffer whether or not another [add_output] under the
    same key and type came before it, whatever that one did. The call
    itself changes no list object: what the earlier call did to the list
    object its record held stays done, for whoever else holds it. *)
Theorem overwriting_add_output_forgets_earlier (b : Obj.buffer)
  (key t : string) (v1 v2 : Obj.ref) (a1 a2 : bool) :
  Obj.is_none v2 = false → t ∉ _variable_array_types ∨ a2 = false →
  let b1 := (Obj.add_output key v1 t a1 b).2 in
  (Obj.add_output key v2 t a2 b1).1 = Ok tt ∧
  (Obj.add_output key v2 t a2 b).1 = Ok tt ∧
  Obj.output_data (Obj.add_output key v2 t a2 b1).2 =
    Obj.output_data (Obj.add_output key v2 t a2 b).2 ∧
  Obj.heap (Obj.add_output key v2 t a2 b1).2 = Obj.heap b1 ∧
  Obj.heap (Obj.add_output key v2 t a2 b).2 = Obj.heap b.
Proof.
  intros Hv Hc b1.
  rewrite (obj_add_output_overwrite b key t v2 a2) by done.
  rewrite (obj_add_output_overwrite b1 key t v2 a2) by done.
  cbn [fst snd Obj.output_data Obj.heap].
  split; [done |]. split; [done |]. split; [|done].
  set (index := key +:+ "-" +:+ t).
  assert (is_Some (Dict.get (Dict.setdefault (Obj.output_data b) index
                               Obj.empty_record) index)) as Hin
    by by rewrite dict_get_setdefault.
  destruct (obj_add_output_records b key t v1 a1) as [E | [r E]];
    fold index b1 in E; rewrite E.
  - by rewrite (dict_setdefault_present
                  (Dict.setdefault (Obj.output_data b) index
                     Obj.empty_record)) by done.
  - rewrite (dict_setdefault_present (Dict.set _ _ _))
      by by rewrite dict_get_set.
    apply dict_set_set.
Qed.

Lemma add_output_changes_only_its_record_witness :
  let b0 := Obj.Buffer [] {[ 1%positive := [VStr "a"] ]} in
  let b1 := (Obj.add_output "y" (Obj.At 1%positive) "StringArray" false b0).2 in
  let b2 := (Obj.add_output "x" (Obj.At 1%positive) "StringArray" false b1).2 in
  let b3 := (Obj.add_output "x" (Obj.Own (VStr "b")) "StringArray" true
               b2).2 in
  Dict.get (Obj.output_data b3) "y-StringArray" =
    Dict.get (Obj.output_data b2) "y-StringArray" ∧
  Obj.deref (Obj.heap b3) 1%positive = [VStr "a"; VStr "b"] ∧
  Dict.get (Obj.view b2) "y-StringArray" =
    Some {| rec_key := Some "y"; rec_type := Some "StringArray";
            rec_value := Some (VList [VStr "a"]) |} ∧
  Dict.get (Obj.view b3) "y-StringArray" =
    Some {| rec_key := Some "y"; rec_type := Some "StringArray";
            rec_value := Some (VList [VStr "a"; VStr "b"]) |}.
Proof.
  intros b0 b1 b2 b3.
  destruct (add_output_changes_only_its_record b2 "x" "StringArray"
              (Obj.Own (VStr "b")) true) as (_ & Hrec & _ & _ & Hext & _).
  split; [by apply Hrec |].
  assert (Dict.get (Obj.output_data b2) "x-StringArray" =
            Some {| Obj.okey := Some "x"; Obj.otype := Some "StringArray";
                    Obj.ovalue := Some (Obj.At 1%positive) |}) as Hr
    by (vm_compute; reflexivity).
  assert ("StringArray" ∈ _variable_array_types) as Ht
    by by apply (bool_decide_eq_true_1 _).
  destruct (Hext _ 1%positive Hr eq_refl Ht eq_refl) as [_ Hd].
  split; [etrans; [exact Hd |]; vm_compute; reflexivity |].
  split; vm_compute; reflexivity.
Defined.

Lemma overwriting_add_output_witness :
  let b0 := Obj.Buffer [] {[ 1%positive := [VStr "a"] ]} in
  let b1 := (Obj.add_output "y" (Obj.At 1%positive) "StringArray" false b0).2 in
  let b2 := (Obj.add_output "x" (Obj.At 1%positive) "StringArray" false b1).2 in
  let earlier := (Obj.add_output "x" (Obj.Own (VStr "b")) "StringArray" true
                    b2).2 in
  let new := Obj.Own (VList [VStr "c"]) in
  Obj.output_data (Obj.add_output "x" new "StringArray" false earlier).2 =
    Obj.output_data (Obj.add_output "x" new "StringArray" false b2).2 ∧
  Obj.deref (Obj.heap (Obj.add_output "x" new "StringArray" false earlier).2)
    1%positive = [VStr "a"; VStr "b"] ∧
  Obj.deref (Obj.heap (Obj.add_output "x" new "StringArray" false b2).2)
    1%positive = [VStr "a"].
Proof.
  intros b0 b1 b2 earlier new.
  destruct (overwriting_add_output_forgets_earlier b2 "x" "StringArray"
              (Obj.Own (VStr "b")) new true false eq_refl
              (or_intror eq_refl)) as (_ & _ & Hd & Hh1 & Hh2).
  split; [exact Hd |]. fold earlier in Hh1. rewrite Hh1, Hh2.
  split; vm_compute; reflexivity.
Defined.

Lemma add_output_by_contents_witness :
  let b0 := Obj.Buffer [] {[ 1%positive := [VStr "a"] ]} in
  let b1 := (Obj.add_output "y" (Obj.At 1%positive) "StringArray" false b0).2 in
  let b2 := (Obj.add_output "x" (Obj.At 1%positive) "StringArray" false b1).2 in
  let pb := MkPlaybook None (Obj.view b2) (∅ : memory) in
  (add_output "x" (VList [VStr "a"]) "StringArray" true pb).1 =
    (Obj.add_output "x" (Obj.At 1%positive) "StringArray" true b2).1 ∧
  Dict.get (output_data
              (add_output "x" (VList [VStr "a"]) "StringArray" true pb).2)
    "x-StringArray" =
  Dict.get (Obj.view (Obj.add_output "x" (Obj.At 1%positive) "StringArray" true b2).2)
    "x-StringArray".
Proof.
  intros b0 b1 b2 pb.
  destruct (add_output_by_contents pb b2 "x" "StringArray" (Obj.At 1%positive) true
              eq_refl) as (Hres & Hget & _).
  split; [exact Hres | exact Hget].
Defined.
